(** * Shallow embedding of the ACL Anthology RAG client and of its aggregator

    The client side lives in [client/src/lib/api.ts] ([searchStream]),
    [components/chat/ChatMessage.tsx] ([parseCitationNumbers],
    [processCitations], [formatAppliedFilters]), [InlineCitation.tsx] and
    [MonitoringPanel.tsx] ([formatFilterValue]).  The aggregator of the
    Python backend is not part of the sources at hand; it is modelled from
    the specification (see [Module Aggregator]). *)

From Stdlib Require Import String Ascii ZArith List Bool Lia.
From Stdlib Require Import QArith Qminmax Qround Qabs Sorting.Permutation Sorting.Sorted.
Import ListNotations.
Open Scope string_scope.
Open Scope Z_scope.
Set Warnings "-register-all".

(* ------------------------------------------------------------------ *)
(** ** JavaScript values and string helpers *)

(** A JSON value as returned by [JSON.parse].  Numbers are kept as
    integers: every number the claims below look at is an integer. *)
Inductive json : Type :=
| JNull
| JBool (b : bool)
| JNum (n : Z)
| JStr (s : string)
| JArr (l : list json)
| JObj (fields : list (string * json)).

Definition nl : ascii := "010"%char.

Definition digit_char (d : Z) : ascii := ascii_of_nat (48 + Z.to_nat d).

Fixpoint digits_aux (fuel : nat) (n : Z) (acc : string) : string :=
  match fuel with
  | O => acc
  | S f =>
      let acc' := String (digit_char (n mod 10)) acc in
      if n <? 10 then acc' else digits_aux f (n / 10) acc'
  end.

(** [String(n)] for an integer [n]: its decimal notation. *)
Definition Z_to_string (z : Z) : string :=
  let body := digits_aux (S (Z.to_nat (Z.log2 (Z.abs z)))) (Z.abs z) "" in
  if z <? 0 then "-" ++ body else body.

(** JavaScript truthiness of a JSON value. *)
Definition truthy (v : json) : bool :=
  match v with
  | JNull => false
  | JBool b => b
  | JNum n => negb (n =? 0)
  | JStr s => negb (String.eqb s "")
  | JArr _ | JObj _ => true
  end.

(** [String(v)], as used by [new Error(v)]. Arrays are joined with [,],
    their [null] elements printed as the empty string. *)
Fixpoint js_to_string (v : json) : string :=
  match v with
  | JNull => "null"
  | JBool b => if b then "true" else "false"
  | JNum n => Z_to_string n
  | JStr s => s
  | JArr l =>
      String.concat ","
        ((fix go (l : list json) : list string :=
            match l with
            | [] => []
            | JNull :: r => "" :: go r
            | x :: r => js_to_string x :: go r
            end) l)
  | JObj _ => "[object Object]"
  end.

Fixpoint assoc_last (k : string) (fs : list (string * json)) : option json :=
  match fs with
  | [] => None
  | (k', v) :: r =>
      match assoc_last k r with
      | Some w => Some w
      | None => if String.eqb k k' then Some v else None
      end
  end.

(** Property access [v.k]: [None] when it throws (on [null]),
    [Some None] when the property is [undefined]. With duplicate keys
    [JSON.parse] keeps the last one. *)
Definition js_get (v : json) (k : string) : option (option json) :=
  match v with
  | JNull => None
  | JObj fs => Some (assoc_last k fs)
  | _ => Some None
  end.

(** [s.split("\n")]: the pieces between newlines, always at least one. *)
Fixpoint split_from (acc : string) (s : string) : list string :=
  match s with
  | EmptyString => [acc]
  | String c s' =>
      if Ascii.eqb c nl then acc :: split_from "" s'
      else split_from (acc ++ String c "") s'
  end.

Definition split_lines (s : string) : list string := split_from "" s.

Fixpoint drop (n : nat) (s : string) : string :=
  match n, s with
  | O, _ => s
  | S n', String _ s' => drop n' s'
  | S _, EmptyString => EmptyString
  end.

Fixpoint has_nl (s : string) : bool :=
  match s with
  | EmptyString => false
  | String c s' => Ascii.eqb c nl || has_nl s'
  end.

Lemma str_app_assoc (a b c : string) : (a ++ b) ++ c = a ++ (b ++ c).
Proof. induction a as [|x a IH]; simpl; [reflexivity | now rewrite IH]. Qed.

Lemma str_app_nil_r (a : string) : a ++ "" = a.
Proof. induction a as [|x a IH]; simpl; [reflexivity | now rewrite IH]. Qed.

Lemma prefix_app (p s : string) : String.prefix p (p ++ s) = true.
Proof.
  induction p as [|c p IH]; simpl.
  - destruct s; reflexivity.
  - destruct (ascii_dec c c) as [_|n]; [exact IH | now contradiction n].
Qed.

Lemma split_from_app (acc s t : string) :
  has_nl s = false -> split_from acc (s ++ t) = split_from (acc ++ s) t.
Proof.
  revert acc. induction s as [|c s IH]; intros acc H; simpl in *.
  - now rewrite str_app_nil_r.
  - apply orb_false_iff in H as [Hc Hs]. rewrite Hc, IH by exact Hs.
    now rewrite str_app_assoc.
Qed.

Lemma split_from_line (acc s t : string) :
  has_nl s = false -> split_from acc (s ++ String nl t) = (acc ++ s) :: split_from "" t.
Proof. intros H. rewrite split_from_app by exact H. reflexivity. Qed.

(* ------------------------------------------------------------------ *)
(** ** [searchStream] (client/src/lib/api.ts) *)

Module SSE.

(** One invocation of a caller callback, with its argument. *)
Inductive call : Type :=
| CMetadata (v : json)
| CChunk (v : json)
| CDone
| CError (message : string).

(** [StreamCallbacks]: every callback is optional.  A present callback
    returns whether it calls [abort()] on the controller returned by
    [searchStream] (which a caller may do from inside a callback). *)
Record StreamCallbacks : Type := {
  onMetadata : option (json -> bool);
  onChunk : option (json -> bool);
  onDone : option bool;
  onError : option (string -> bool)
}.

(** What the transport does while the client awaits [fetch(...)] or
    [reader.read()].  [NChunk] carries the text [TextDecoder] yields for a
    read ([stream: true] keeps split multi-byte sequences for the next
    read, so reads are modelled at the level of decoded text).  [NAbort]
    is a call of [abort()] by the caller while the client is suspended:
    the pending promise then rejects with an [AbortError]. *)
Inductive net_event : Type :=
| NResponse (ok : bool) (statusText : string) (has_body : bool)
| NFetchReject (name message : string)
| NChunk (text : string)
| NEnd
| NReadReject (name message : string)
| NAbort.

Section Client.

(** [JSON.parse]: [None] when it throws. *)
Variable JSON_parse : string -> option json.
Variable cbs : StreamCallbacks.

(** State of one pass of the [for (const line of lines)] loop. *)
Record loop_state : Type := {
  currentEvent : string;
  currentData : string;
  log : list call;
  aborted : bool
}.

Definition invoke (st : loop_state) (c : call) (aborts : bool) : loop_state :=
  {| currentEvent := currentEvent st; currentData := currentData st;
     log := log st ++ [c]; aborted := aborted st || aborts |}.

(** [new Error(errorData.error || "Stream error")].message; [None] when
    [errorData.error] throws. *)
Definition error_message (errorData : json) : option string :=
  match js_get errorData "error" with
  | None => None
  | Some (Some f) => if truthy f then Some (js_to_string f) else Some "Stream error"
  | Some None => Some "Stream error"
  end.

(** The body of the [try] block, run at an empty line; a thrown
    exception is caught and logged, and no callback runs. *)
Definition dispatch (st : loop_state) : loop_state :=
  let ev := currentEvent st in
  let data := currentData st in
  match String.eqb ev "metadata", onMetadata cbs with
  | true, Some f =>
      match JSON_parse data with Some v => invoke st (CMetadata v) (f v) | None => st end
  | _, _ =>
  match String.eqb ev "chunk", onChunk cbs with
  | true, Some f =>
      match JSON_parse data with Some v => invoke st (CChunk v) (f v) | None => st end
  | _, _ =>
  match String.eqb ev "done", onDone cbs with
  | true, Some a => invoke st CDone a
  | _, _ =>
  match String.eqb ev "error", onError cbs with
  | true, Some f =>
      match JSON_parse data with
      | Some v =>
          match error_message v with
          | Some m => invoke st (CError m) (f m)
          | None => st
          end
      | None => st
      end
  | _, _ => st
  end end end end.

Definition process_line (st : loop_state) (line : string) : loop_state :=
  if String.prefix "event: " line then
    {| currentEvent := drop 7 line; currentData := currentData st;
       log := log st; aborted := aborted st |}
  else if String.prefix "data: " line then
    {| currentEvent := currentEvent st; currentData := drop 6 line;
       log := log st; aborted := aborted st |}
  else if String.eqb line "" && negb (String.eqb (currentEvent st) "") then
    let st' := dispatch st in
    {| currentEvent := ""; currentData := "";
       log := log st'; aborted := aborted st' |}
  else st.

(** One iteration of [while (true)] after a read returned [text]:
    [lines.pop()] keeps the last piece as the new buffer, and
    [currentEvent]/[currentData] start from [""] on every read. *)
Definition process_read (buffer text : string) : list call * bool * string :=
  let lines := split_lines (buffer ++ text) in
  let st := fold_left process_line (removelast lines)
              {| currentEvent := ""; currentData := ""; log := []; aborted := false |} in
  (log st, aborted st, last lines "").

(** The [.catch] handler. *)
Definition on_rejection (name message : string) : list call :=
  if String.eqb name "AbortError" then []
  else match onError cbs with Some _ => [CError message] | None => [] end.

(** After the loop: [if (callbacks.onDone) callbacks.onDone()]. *)
Definition final_done : list call :=
  match onDone cbs with Some _ => [CDone] | None => [] end.

(** The read awaited after a callback called [abort()] during the
    previous one: when the transport had already received the whole body
    and closed it, the read returns [done] and the loop ends with
    [onDone]; otherwise the pending read rejects with an [AbortError]. *)
Definition after_abort (tr : list net_event) : list call :=
  match tr with
  | NEnd :: _ => final_done
  | _ => on_rejection "AbortError" "The operation was aborted."
  end.

(** The read loop, awaiting [reader.read()] at each step. *)
Fixpoint read_loop (buffer : string) (tr : list net_event) : list call :=
  match tr with
  | [] => []
  | NAbort :: _ => on_rejection "AbortError" "The operation was aborted."
  | NReadReject name m :: _ => on_rejection name m
  | NEnd :: _ => final_done
  | NChunk text :: tr' =>
      let '(calls, ab, buffer') := process_read buffer text in
      calls ++ (if ab then after_abort tr' else read_loop buffer' tr')
  | (NResponse _ _ _ | NFetchReject _ _) :: tr' => read_loop buffer tr'
  end.

(** [searchStream(query, callbacks)] as seen by the callbacks, for a
    given behaviour of the transport. *)
Fixpoint run (tr : list net_event) : list call :=
  match tr with
  | [] => []
  | NAbort :: _ => on_rejection "AbortError" "The operation was aborted."
  | NFetchReject name m :: _ => on_rejection name m
  | NResponse ok statusText has_body :: tr' =>
      if negb ok then on_rejection "Error" ("Search failed: " ++ statusText)
      else if negb has_body then on_rejection "Error" "No response body"
      else read_loop "" tr'
  | (NChunk _ | NEnd | NReadReject _ _) :: tr' => run tr'
  end.

(** Whether the callback behind an invocation calls [abort()]. *)
Definition calls_abort (c : call) : bool :=
  match c with
  | CMetadata v => match onMetadata cbs with Some f => f v | None => false end
  | CChunk v => match onChunk cbs with Some f => f v | None => false end
  | CDone => match onDone cbs with Some a => a | None => false end
  | CError m => match onError cbs with Some f => f m | None => false end
  end.

End Client.

(** The options object of [searchStream]: [topK] is [None] when the
    property is absent or [undefined]. Numbers are integers here. *)
Record SearchOptions : Type := { topK : option Z }.

(** [const { topK = 5 } = options] then [JSON.stringify(requestBody)],
    with [requestBody = { query, top_k: topK }]; the serialised body is
    represented by the JSON value it denotes. *)
Definition request_body (query : string) (options : SearchOptions) : json :=
  let topK := match topK options with Some k => k | None => 5 end in
  JObj [("query", JStr query); ("top_k", JNum topK)].

End SSE.

Module SSEExamples.
Import SSE.

Definition dq : string := String "034"%char EmptyString.
Definition quoted (s : string) : string := dq ++ s ++ dq.

(** The wire form of one server-sent event, as the backend writes it. *)
Definition sse_message (e d : string) : string :=
  "event: " ++ e ++ String nl ("data: " ++ d ++ String nl (String nl "")).

Definition error_payload : string := "{" ++ quoted "error" ++ ":" ++ quoted "boom" ++ "}".

(** A [JSON.parse] that agrees with the real one on the payloads used
    below. *)
Definition sample_parse (s : string) : option json :=
  if String.eqb s "{}" then Some (JObj [])
  else if String.eqb s (quoted "hi") then Some (JStr "hi")
  else if String.eqb s error_payload then Some (JObj [("error", JStr "boom")])
  else None.

Definition all_cbs : StreamCallbacks :=
  {| onMetadata := Some (fun _ => false); onChunk := Some (fun _ => false);
     onDone := Some false; onError := Some (fun _ => false) |}.

(** A caller whose [onMetadata] stops the stream. *)
Definition abort_on_metadata_cbs : StreamCallbacks :=
  {| onMetadata := Some (fun _ => true); onChunk := Some (fun _ => false);
     onDone := Some false; onError := Some (fun _ => false) |}.

Definition well_formed_body : string :=
  sse_message "metadata" "{}" ++ sse_message "chunk" (quoted "hi") ++ sse_message "done" "{}".


Example run_one_read :
  run sample_parse all_cbs [NResponse true "OK" true; NChunk well_formed_body; NEnd]
  = [CMetadata (JObj []); CChunk (JStr "hi"); CDone; CDone].
Proof. reflexivity. Qed.

End SSEExamples.

Module SSEFacts.
Import SSE SSEExamples.

Lemma sse_message_app (e d t : string) :
  sse_message e d ++ t =
  ("event: " ++ e) ++ String nl (("data: " ++ d) ++ String nl (String nl t)).
Proof.
  unfold sse_message. rewrite !str_app_assoc. simpl. rewrite !str_app_assoc. reflexivity.
Qed.

Lemma split_message (e d t : string) :
  has_nl e = false -> has_nl d = false ->
  split_from "" (sse_message e d ++ t)
  = ("event: " ++ e) :: ("data: " ++ d) :: "" :: split_from "" t.
Proof.
  intros He Hd. rewrite sse_message_app.
  rewrite split_from_line by (simpl; exact He).
  rewrite split_from_line by (simpl; exact Hd).
  reflexivity.
Qed.

Lemma process_event_line parse cbs st (e : string) :
  process_line parse cbs st ("event: " ++ e)
  = {| currentEvent := e; currentData := currentData st;
       log := log st; aborted := aborted st |}.
Proof. unfold process_line. rewrite prefix_app. reflexivity. Qed.

Lemma process_data_line parse cbs st (d : string) :
  process_line parse cbs st ("data: " ++ d)
  = {| currentEvent := currentEvent st; currentData := d;
       log := log st; aborted := aborted st |}.
Proof. unfold process_line. rewrite (prefix_app "data: " d). reflexivity. Qed.

Lemma process_empty_line parse cbs st :
  String.eqb (currentEvent st) "" = false ->
  process_line parse cbs st ""
  = let st' := dispatch parse cbs st in
    {| currentEvent := ""; currentData := ""; log := log st'; aborted := aborted st' |}.
Proof. intros H. unfold process_line. simpl. now rewrite H. Qed.

Lemma fold_message parse cbs (e d : string) rest st :
  String.eqb e "" = false ->
  fold_left (process_line parse cbs) (("event: " ++ e) :: ("data: " ++ d) :: "" :: rest) st
  = fold_left (process_line parse cbs) rest
      (let st' := dispatch parse cbs {| currentEvent := e; currentData := d;
                                        log := log st; aborted := aborted st |} in
       {| currentEvent := ""; currentData := ""; log := log st'; aborted := aborted st' |}).
Proof.
  intros He. cbn [fold_left].
  rewrite process_event_line, process_data_line, process_empty_line by exact He.
  reflexivity.
Qed.

Definition chunk_msgs (l : list (string * json)) : string :=
  fold_right (fun p acc => sse_message "chunk" (fst p) ++ acc) "" l.

Definition chunk_lines (l : list (string * json)) : list string :=
  flat_map (fun p => ["event: " ++ "chunk"; "data: " ++ fst p; ""]) l.

Lemma split_chunks (l : list (string * json)) (t : string) :
  Forall (fun p => has_nl (fst p) = false) l ->
  split_from "" (chunk_msgs l ++ t) = (chunk_lines l ++ split_from "" t)%list.
Proof.
  induction 1 as [|p l Hp Hl IH]; [reflexivity|].
  cbn [chunk_msgs fold_right]. rewrite str_app_assoc.
  rewrite split_message by (reflexivity || exact Hp).
  fold (chunk_msgs l). rewrite IH. reflexivity.
Qed.

Lemma dispatch_passive_chunk parse d v lg :
  parse d = Some v ->
  dispatch parse all_cbs {| currentEvent := "chunk"; currentData := d; log := lg; aborted := false |}
  = {| currentEvent := "chunk"; currentData := d; log := (lg ++ [CChunk v])%list; aborted := false |}.
Proof. intros H. unfold dispatch. simpl. now rewrite H. Qed.

Lemma dispatch_passive_metadata parse d v lg :
  parse d = Some v ->
  dispatch parse all_cbs {| currentEvent := "metadata"; currentData := d; log := lg; aborted := false |}
  = {| currentEvent := "metadata"; currentData := d; log := (lg ++ [CMetadata v])%list; aborted := false |}.
Proof. intros H. unfold dispatch. simpl. now rewrite H. Qed.

Lemma dispatch_passive_done parse d lg :
  dispatch parse all_cbs {| currentEvent := "done"; currentData := d; log := lg; aborted := false |}
  = {| currentEvent := "done"; currentData := d; log := (lg ++ [CDone])%list; aborted := false |}.
Proof. reflexivity. Qed.

Lemma dispatch_passive_error parse d v m lg :
  parse d = Some v -> error_message v = Some m ->
  dispatch parse all_cbs {| currentEvent := "error"; currentData := d; log := lg; aborted := false |}
  = {| currentEvent := "error"; currentData := d; log := (lg ++ [CError m])%list; aborted := false |}.
Proof. intros H Hm. unfold dispatch. simpl. now rewrite H, Hm. Qed.

Lemma removelast_cons3_app {A : Type} (a b c : A) (X Y : list A) :
  Y <> [] -> removelast (a :: b :: c :: X ++ Y) = (a :: b :: c :: X ++ removelast Y)%list.
Proof.
  intros H. change (a :: b :: c :: X ++ Y)%list with ((a :: b :: c :: X) ++ Y)%list.
  rewrite removelast_app by exact H. reflexivity.
Qed.

Definition idle (lg : list call) : loop_state :=
  {| currentEvent := ""; currentData := ""; log := lg; aborted := false |}.

Lemma fold_chunks parse (l : list (string * json)) rest lg :
  Forall (fun p => parse (fst p) = Some (snd p)) l ->
  fold_left (process_line parse all_cbs) (chunk_lines l ++ rest)%list (idle lg)
  = fold_left (process_line parse all_cbs) rest
      (idle (lg ++ map (fun p => CChunk (snd p)) l)%list).
Proof.
  intros H. revert lg. induction H as [|p l Hp Hl IH]; intros lg.
  - simpl. now rewrite app_nil_r.
  - cbn [chunk_lines flat_map]. rewrite <- app_assoc. cbn [app].
    rewrite fold_message by reflexivity. cbn zeta.
    cbn [idle log aborted]. rewrite (dispatch_passive_chunk _ _ _ _ Hp).
    cbn [log aborted orb]. fold (idle (lg ++ [CChunk (snd p)])%list).
    fold (chunk_lines l). rewrite IH. now rewrite <- app_assoc.
Qed.

End SSEFacts.

(* ------------------------------------------------------------------ *)
(** ** Further properties of [searchStream] *)

Module SSEMore.
Import SSE SSEExamples SSEFacts.

(** An event whose payload is written over several [data:] lines. *)
Definition multi_data_message (e : string) (ds : list string) : string :=
  "event: " ++ e ++ String nl (fold_right (fun d acc => "data: " ++ d ++ String nl acc)
                                          (String nl "") ds).

(** Whether some line of [s] before its last newline is empty: the only
    lines at which [searchStream] dispatches a message. *)
Definition no_blank_line (s : string) : bool :=
  forallb (fun l => negb (String.eqb l "")) (removelast (split_lines s)).

Lemma has_nl_app (a b : string) : has_nl (a ++ b) = has_nl a || has_nl b.
Proof. induction a as [|c a IH]; simpl; [reflexivity | now rewrite IH, orb_assoc]. Qed.

Lemma split_from_nonempty (acc s : string) : split_from acc s <> [].
Proof.
  revert acc. induction s as [|c s IH]; intros acc; simpl; [discriminate|].
  destruct (Ascii.eqb c nl); [discriminate | apply IH].
Qed.

Lemma last_cons_default {A : Type} (x d : A) (l : list A) : last (x :: l) d = last l x.
Proof.
  revert x d. induction l as [|y l IH]; intros x d; [reflexivity|].
  change (last (x :: y :: l) d) with (last (y :: l) d). now rewrite !IH.
Qed.

Lemma last_cons_nonempty {A : Type} (x d : A) (l : list A) : l <> [] -> last (x :: l) d = last l d.
Proof. intros H. destruct l; [contradiction | reflexivity]. Qed.

Lemma removelast_cons_nonempty {A : Type} (x : A) (l : list A) :
  l <> [] -> removelast (x :: l) = x :: removelast l.
Proof. intros H. destruct l; [contradiction | reflexivity]. Qed.

Lemma last_app_nonempty {A : Type} (l1 l2 : list A) (d : A) :
  l2 <> [] -> last (l1 ++ l2) d = last l2 d.
Proof.
  intros H. induction l1 as [|x l1 IH]; [reflexivity|].
  cbn [app]. rewrite last_cons_nonempty; [exact IH|].
  destruct l1; [exact H | discriminate].
Qed.

(** The piece a read leaves in [buffer] holds no newline. *)
Lemma split_from_last_no_nl (acc s : string) :
  has_nl acc = false -> has_nl (last (split_from acc s) "") = false.
Proof.
  revert acc. induction s as [|c s IH]; intros acc H; simpl; [exact H|].
  destruct (Ascii.eqb c nl) eqn:E.
  - rewrite last_cons_nonempty by apply split_from_nonempty. now apply IH.
  - apply IH. rewrite has_nl_app. simpl. now rewrite H, E.
Qed.

(** Splitting a concatenation: the lines of [p], then the lines of [t]
    continued from the last piece of [p]. *)
Lemma split_from_concat (acc p t : string) :
  split_from acc (p ++ t)
  = (removelast (split_from acc p) ++ split_from (last (split_from acc p) "") t)%list.
Proof.
  revert acc. induction p as [|c p IH]; intros acc; simpl; [reflexivity|].
  destruct (Ascii.eqb c nl).
  - rewrite IH. rewrite removelast_cons_nonempty, last_cons_nonempty by apply split_from_nonempty.
    reflexivity.
  - apply IH.
Qed.

Lemma process_line_nonblank parse cbs st l :
  l <> "" -> log (process_line parse cbs st l) = log st
             /\ aborted (process_line parse cbs st l) = aborted st.
Proof.
  intros H. unfold process_line.
  destruct (String.prefix "event: " l); [split; reflexivity|].
  destruct (String.prefix "data: " l); [split; reflexivity|].
  destruct (String.eqb l "") eqn:E; [apply String.eqb_eq in E; contradiction|].
  split; reflexivity.
Qed.

Lemma fold_nonblank parse cbs ls st :
  forallb (fun l => negb (String.eqb l "")) ls = true ->
  log (fold_left (process_line parse cbs) ls st) = log st
  /\ aborted (fold_left (process_line parse cbs) ls st) = aborted st.
Proof.
  revert st. induction ls as [|l ls IH]; intros st H; [split; reflexivity|].
  simpl in H. apply andb_true_iff in H as [Hl Hls].
  apply negb_true_iff, String.eqb_neq in Hl.
  cbn [fold_left]. destruct (IH (process_line parse cbs st l) Hls) as [-> ->].
  apply process_line_nonblank. exact Hl.
Qed.

Lemma process_read_unfold parse cbs b t :
  has_nl b = false ->
  process_read parse cbs b t =
  (let lines := split_from b t in
   let st := fold_left (process_line parse cbs) (removelast lines)
               {| currentEvent := ""; currentData := ""; log := []; aborted := false |} in
   (log st, aborted st, last lines "")).
Proof.
  intros H. unfold process_read, split_lines.
  rewrite split_from_app by exact H. reflexivity.
Qed.

Lemma read_loop_no_blank parse cbs ts rest :
  forall b, has_nl b = false ->
  forallb (fun l => negb (String.eqb l "")) (removelast (split_from b (String.concat "" ts))) = true ->
  read_loop parse cbs b (map NChunk ts ++ NEnd :: rest) = final_done cbs.
Proof.
  induction ts as [|t ts IH]; intros b Hb H; [reflexivity|].
  cbn [map app read_loop]. rewrite process_read_unfold by exact Hb. cbv zeta.
  assert (Hcat : String.concat "" (t :: ts) = t ++ String.concat "" ts).
  { destruct ts; [now rewrite str_app_nil_r | reflexivity]. }
  rewrite Hcat, split_from_concat in H.
  rewrite removelast_app in H by apply split_from_nonempty.
  rewrite forallb_app in H. apply andb_true_iff in H as [H1 H2].
  destruct (fold_nonblank parse cbs (removelast (split_from b t))
              {| currentEvent := ""; currentData := ""; log := []; aborted := false |} H1)
    as [-> ->].
  cbn [log aborted app]. apply IH; [|exact H2].
  apply split_from_last_no_nl. exact Hb.
Qed.

Lemma on_rejection_only_errors cbs name m c :
  In c (on_rejection cbs name m) -> exists m', c = CError m'.
Proof.
  unfold on_rejection. destruct (String.eqb name "AbortError"); [intros []|].
  destruct (onError cbs); [|intros []]. intros [<-|[]]. eexists; reflexivity.
Qed.

Lemma fold_data_lines parse cbs ds st :
  fold_left (process_line parse cbs) (map (fun d => "data: " ++ d) ds) st
  = {| currentEvent := currentEvent st; currentData := last ds (currentData st);
       log := log st; aborted := aborted st |}.
Proof.
  revert st. induction ds as [|d ds IH]; intros st.
  - destruct st; reflexivity.
  - cbn [map fold_left]. rewrite process_data_line, IH. cbn [currentEvent currentData log aborted].
    now rewrite last_cons_default.
Qed.

Lemma split_from_no_nl (acc s : string) : has_nl s = false -> split_from acc s = [acc ++ s].
Proof.
  intros H. rewrite <- (str_app_nil_r s) at 1. rewrite split_from_app by exact H. reflexivity.
Qed.

Lemma process_read_buffer parse cbs b t :
  has_nl b = false -> has_nl (snd (process_read parse cbs b t)) = false.
Proof.
  intros H. rewrite process_read_unfold by exact H. apply split_from_last_no_nl. exact H.
Qed.

Lemma read_loop_chunks_congr parse cbs (pre : list string) (X Y : list net_event) :
  (forall b', has_nl b' = false -> read_loop parse cbs b' X = read_loop parse cbs b' Y) ->
  after_abort cbs X = after_abort cbs Y ->
  forall b, has_nl b = false ->
  read_loop parse cbs b (map NChunk pre ++ X) = read_loop parse cbs b (map NChunk pre ++ Y).
Proof.
  intros HXY HA. induction pre as [|t pre IH]; intros b Hb; [now apply HXY|].
  cbn [map app read_loop].
  pose proof (process_read_buffer parse cbs b t Hb) as Hb'.
  destruct (process_read parse cbs b t) as [[calls ab] b']. cbn [snd] in Hb'.
  f_equal. destruct ab; [destruct pre; [exact HA | reflexivity]|]. now apply IH.
Qed.

(** The callbacks of [cbs], with the same ones present, none of which
    calls [abort()]. *)
Definition silent (cbs : StreamCallbacks) : StreamCallbacks :=
  {| onMetadata := option_map (fun _ _ => false) (onMetadata cbs);
     onChunk := option_map (fun _ _ => false) (onChunk cbs);
     onDone := option_map (fun _ => false) (onDone cbs);
     onError := option_map (fun _ _ => false) (onError cbs) |}.

(** The callbacks [dispatch] runs for a message, and whether one of them
    calls [abort()]. *)
Definition dispatch_calls parse cbs (ev data : string) : list call :=
  log (dispatch parse cbs {| currentEvent := ev; currentData := data; log := []; aborted := false |}).

Definition dispatch_aborts parse cbs (ev data : string) : bool :=
  aborted (dispatch parse cbs {| currentEvent := ev; currentData := data; log := []; aborted := false |}).

Ltac destruct_matches :=
  repeat match goal with |- context [match ?x with _ => _ end] => destruct x end.

Lemma dispatch_shape parse cbs st :
  dispatch parse cbs st =
  {| currentEvent := currentEvent st; currentData := currentData st;
     log := (log st ++ dispatch_calls parse cbs (currentEvent st) (currentData st))%list;
     aborted := aborted st || dispatch_aborts parse cbs (currentEvent st) (currentData st) |}.
Proof.
  destruct st as [ev data lg ab].
  unfold dispatch_calls, dispatch_aborts, dispatch, invoke. cbn [currentEvent currentData log aborted].
  destruct_matches; cbn [log aborted app orb]; rewrite ?app_nil_r, ?orb_false_r; reflexivity.
Qed.

Lemma dispatch_silent_calls parse cbs ev data :
  dispatch_calls parse (silent cbs) ev data = dispatch_calls parse cbs ev data.
Proof.
  destruct cbs as [om oc od oe]. unfold dispatch_calls, dispatch, invoke, silent.
  cbn [onMetadata onChunk onDone onError currentEvent currentData].
  destruct om, oc, od, oe; cbn [option_map]; destruct_matches; reflexivity.
Qed.

Lemma dispatch_silent_aborts parse cbs ev data :
  dispatch_aborts parse (silent cbs) ev data = false.
Proof.
  destruct cbs as [om oc od oe]. unfold dispatch_aborts, dispatch, invoke, silent.
  cbn [onMetadata onChunk onDone onError currentEvent currentData].
  destruct om, oc, od, oe; cbn [option_map]; destruct_matches; reflexivity.
Qed.



(** With [silent cbs] a line does what it does with [cbs], except that
    no callback aborts. *)
Lemma process_line_silent parse cbs st1 st2 l :
  currentEvent st1 = currentEvent st2 -> currentData st1 = currentData st2 -> log st1 = log st2 ->
  let p := process_line parse cbs st1 l in
  let q := process_line parse (silent cbs) st2 l in
  currentEvent p = currentEvent q /\ currentData p = currentData q /\ log p = log q
  /\ aborted q = aborted st2.
Proof.
  destruct st1 as [e1 d1 l1 a1], st2 as [e2 d2 l2 a2].
  cbn [currentEvent currentData log]. intros -> -> ->. cbv zeta. unfold process_line.
  cbn [currentEvent currentData log aborted].
  destruct (String.prefix "event: " l); [now repeat split|].
  destruct (String.prefix "data: " l); [now repeat split|].
  destruct (String.eqb l "" && negb (String.eqb e2 "")); [|now repeat split].
  rewrite !dispatch_shape. cbn [currentEvent currentData log aborted].
  rewrite dispatch_silent_calls, dispatch_silent_aborts, orb_false_r. now repeat split.
Qed.

Lemma fold_silent parse cbs ls st1 st2 :
  currentEvent st1 = currentEvent st2 -> currentData st1 = currentData st2 -> log st1 = log st2 ->
  let p := fold_left (process_line parse cbs) ls st1 in
  let q := fold_left (process_line parse (silent cbs)) ls st2 in
  currentEvent p = currentEvent q /\ currentData p = currentData q /\ log p = log q
  /\ aborted q = aborted st2.
Proof.
  revert st1 st2. induction ls as [|l ls IH]; intros st1 st2 He Hd Hl; [now repeat split|].
  cbn [fold_left].
  destruct (process_line_silent parse cbs st1 st2 l He Hd Hl) as (He' & Hd' & Hl' & Ha').
  destruct (IH _ _ He' Hd' Hl') as (? & ? & ? & Ha). rewrite Ha'  in Ha. now repeat split.
Qed.

(** A read gives the same callbacks and leaves the same buffer with
    [cbs] and with [silent cbs]; with [silent cbs] nothing aborts. *)
Lemma process_read_silent parse cbs b t :
  fst (fst (process_read parse cbs b t)) = fst (fst (process_read parse (silent cbs) b t))
  /\ snd (process_read parse cbs b t) = snd (process_read parse (silent cbs) b t)
  /\ snd (fst (process_read parse (silent cbs) b t)) = false.
Proof.
  unfold process_read. cbn [fst snd].
  destruct (fold_silent parse cbs (removelast (split_lines (b ++ t)))
              {| currentEvent := ""; currentData := ""; log := []; aborted := false |}
              {| currentEvent := ""; currentData := ""; log := []; aborted := false |}
              eq_refl eq_refl eq_refl) as (_ & _ & Hl & Ha).
  now repeat split.
Qed.






(** The wire form of a list of messages, each an (event, data) pair. *)
Definition events_text (g : list (string * string)) : string :=
  fold_right (fun p acc => sse_message (fst p) (snd p) ++ acc) "" g.

Definition events_lines (g : list (string * string)) : list string :=
  flat_map (fun p => ["event: " ++ fst p; "data: " ++ snd p; ""]) g.

(** A message [dispatch] can see as sent: a nonempty event name, and no
    newline in the event name or in the payload. *)
Definition message_ok (p : string * string) : Prop :=
  String.eqb (fst p) "" = false /\ has_nl (fst p) = false /\ has_nl (snd p) = false.

Lemma split_events (g : list (string * string)) (t : string) :
  Forall message_ok g ->
  split_from "" (events_text g ++ t) = (events_lines g ++ split_from "" t)%list.
Proof.
  induction 1 as [|p g (_ & He & Hd) Hg IH]; [reflexivity|].
  cbn [events_text fold_right]. rewrite str_app_assoc.
  rewrite split_message by assumption.
  fold (events_text g). rewrite IH. reflexivity.
Qed.

Lemma fold_events parse cbs (g : list (string * string)) lg :
  Forall message_ok g ->
  fold_left (process_line parse (silent cbs)) (events_lines g) (idle lg)
  = idle (lg ++ flat_map (fun p => dispatch_calls parse (silent cbs) (fst p) (snd p)) g)%list.
Proof.
  intros H. revert lg. induction H as [|p g (Hne & _ & _) Hg IH]; intros lg.
  - cbn. now rewrite app_nil_r.
  - cbn [events_lines flat_map]. cbn [app].
    rewrite fold_message by exact Hne. cbv zeta.
    rewrite dispatch_shape. cbn [currentEvent currentData log aborted idle].
    rewrite dispatch_silent_aborts. cbn [orb].
    fold (idle (lg ++ dispatch_calls parse (silent cbs) (fst p) (snd p))%list).
    fold (events_lines g). rewrite IH. now rewrite <- app_assoc.
Qed.

(** A read made of whole messages, from an empty buffer, dispatches each
    of them and leaves the buffer empty. *)
Lemma process_read_events parse cbs (g : list (string * string)) :
  Forall message_ok g ->
  process_read parse (silent cbs) "" (events_text g)
  = (flat_map (fun p => dispatch_calls parse (silent cbs) (fst p) (snd p)) g, false, "").
Proof.
  intros H. unfold process_read, split_lines. cbn [String.append].
  rewrite <- (str_app_nil_r (events_text g)), split_events by exact H. cbn [split_from].
  rewrite removelast_app, last_app_nonempty by discriminate. cbn [removelast last].
  rewrite app_nil_r. fold (idle []). rewrite fold_events by exact H. reflexivity.
Qed.

(** Reads that each carry whole messages give the callbacks of the
    messages in order, then the [onDone] of the stream end. *)
Lemma read_loop_events parse cbs (groups : list (list (string * string))) rest :
  Forall message_ok (concat groups) ->
  read_loop parse (silent cbs) "" (map (fun g => NChunk (events_text g)) groups ++ NEnd :: rest)
  = (flat_map (fun p => dispatch_calls parse (silent cbs) (fst p) (snd p)) (concat groups)
     ++ final_done (silent cbs))%list.
Proof.
  induction groups as [|g groups IH]; intros H; [reflexivity|].
  cbn [concat map app] in *. apply Forall_app in H as [Hg Hgs].
  cbn [read_loop]. rewrite process_read_events by exact Hg.
  rewrite IH by exact Hgs. now rewrite flat_map_app, app_assoc.
Qed.

End SSEMore.

Module SSEClaims.
Import SSE SSEExamples SSEFacts SSEMore.

Theorem searchStream_well_formed_stream parse md vm l dd statusText :
  has_nl md = false -> parse md = Some vm ->
  Forall (fun p => has_nl (fst p) = false /\ parse (fst p) = Some (snd p)) l ->
  has_nl dd = false ->
  run parse all_cbs
    [NResponse true statusText true;
     NChunk (sse_message "metadata" md ++ chunk_msgs l ++ sse_message "done" dd); NEnd]
  = (CMetadata vm :: map (fun p => CChunk (snd p)) l ++ [CDone; CDone])%list.
Proof.
  intros Hmd Hvm Hl Hdd.
  cbn [run negb read_loop]. unfold process_read, split_lines. cbn [String.append].
  rewrite <- (str_app_nil_r (sse_message "done" dd)).
  rewrite split_message by (reflexivity || exact Hmd).
  rewrite split_chunks by (eapply Forall_impl; [|exact Hl]; intros p [H _]; exact H).
  rewrite split_message by (reflexivity || exact Hdd).
  cbn [split_from].
  rewrite removelast_cons3_app by discriminate. cbn [removelast].
  rewrite fold_message by reflexivity. cbn zeta. cbn [log aborted].
  rewrite (dispatch_passive_metadata _ _ _ _ Hvm). cbn [log aborted orb].
  cbn [app]. fold (idle [CMetadata vm]).
  rewrite fold_chunks by (eapply Forall_impl; [|exact Hl]; intros p [_ H]; exact H).
  rewrite fold_message by reflexivity. cbn zeta. cbn [log aborted idle].
  rewrite dispatch_passive_done. cbn [fold_left log aborted orb].
  unfold final_done. cbn. now rewrite <- app_assoc.
Qed.

Lemma searchStream_well_formed_stream_witness :
  run sample_parse all_cbs
    [NResponse true "OK" true;
     NChunk (sse_message "metadata" "{}" ++ chunk_msgs [(quoted "hi", JStr "hi")]
             ++ sse_message "done" "{}"); NEnd]
  = [CMetadata (JObj []); CChunk (JStr "hi"); CDone; CDone].
Proof.
  apply (searchStream_well_formed_stream sample_parse "{}" (JObj [])
           [(quoted "hi", JStr "hi")] "{}" "OK"); try reflexivity.
  repeat constructor.
Defined.

Lemma read_loop_abort_prefix parse cbs buffer pre post :
  read_loop parse cbs buffer (pre ++ NAbort :: post) = read_loop parse cbs buffer pre.
Proof.
  revert buffer. induction pre as [|ev pre IH]; intros buffer; [reflexivity|].
  destruct ev; cbn [app read_loop]; try reflexivity; try apply IH.
  destruct (process_read parse cbs buffer text) as [[calls ab] buffer'].
  f_equal. destruct ab; [|apply IH]. destruct pre as [|[] pre]; reflexivity.
Qed.

(** ** C4 (amended) An [abort()] made while [searchStream] is suspended
    (awaiting [fetch] or a read, as [handleStop] does from a UI event)
    ends the stream silently: whatever the transport would do afterwards,
    the callbacks seen are those seen before the abort, so the
    [AbortError] never reaches [onError].  An [abort()] made from inside a
    callback does not stop the read being processed: that read gives the
    same callbacks as with callbacks that never abort; after it no callback
    runs but the trailing [onDone] when the body had already been received
    in full, and never [onError]. *)
Theorem searchStream_abort_behaviour parse cbs :
  (forall pre post, run parse cbs (pre ++ NAbort :: post) = run parse cbs pre)
  /\ (forall b t,
        fst (fst (process_read parse cbs b t)) = fst (fst (process_read parse (silent cbs) b t))
        /\ snd (process_read parse cbs b t) = snd (process_read parse (silent cbs) b t)
        /\ snd (fst (process_read parse (silent cbs) b t)) = false)
  /\ (forall b t tr,
        snd (fst (process_read parse cbs b t)) = true ->
        read_loop parse cbs b (NChunk t :: tr)
        = (fst (fst (process_read parse cbs b t))
           ++ match tr with NEnd :: _ => final_done cbs | _ => [] end)%list).
Proof.
  split; [|split].
  - intros pre post. induction pre as [|ev pre IH]; [reflexivity|].
    destruct ev; cbn [app run]; try reflexivity; try apply IH.
    destruct (negb ok); [reflexivity|]. destruct (negb has_body); [reflexivity|].
    apply read_loop_abort_prefix.
  - apply process_read_silent.
  - intros b t tr H. cbn [read_loop].
    destruct (process_read parse cbs b t) as [[calls ab] b']. cbn [fst snd] in *. subst ab.
    destruct tr as [|[] tr]; reflexivity.
Qed.

(** ** C4 (counterexample) "no callback after abort" fails when the caller
    aborts from inside a callback: the messages of the same read are still
    dispatched, and [onDone] follows when the body had been received in
    full. *)
Lemma searchStream_abort_in_callback_cex :
  ~ (forall parse cbs tr l1 c l2,
       run parse cbs tr = (l1 ++ c :: l2)%list -> calls_abort cbs c = true -> l2 = []).
Proof.
  intros H.
  assert (E : run sample_parse abort_on_metadata_cbs
                [NResponse true "OK" true; NChunk well_formed_body; NEnd]
              = ([] ++ CMetadata (JObj []) :: [CChunk (JStr "hi"); CDone; CDone])%list)
    by reflexivity.
  specialize (H _ _ _ _ _ _ E eq_refl). discriminate H.
Qed.

(** ** C6 Without [topK] the body carries [top_k = 5]; with [topK = k] it
    carries [k]. *)
Theorem searchStream_top_k_default query k :
  js_get (request_body query {| topK := None |}) "top_k" = Some (Some (JNum 5))
  /\ js_get (request_body query {| topK := Some k |}) "top_k" = Some (Some (JNum k)).
Proof. split; reflexivity. Qed.




(** ** C8 (code bug) [currentEvent] is reset on every read: the same
    message delivered in one read or split at a line boundary over two
    reads yields different callbacks. *)
Theorem searchStream_rechunk_diverges :
  run sample_parse all_cbs
    [NResponse true "OK" true; NChunk (sse_message "chunk" (quoted "hi")); NEnd]
  = [CChunk (JStr "hi"); CDone]
  /\ run sample_parse all_cbs
    [NResponse true "OK" true; NChunk ("event: chunk" ++ String nl "");
     NChunk ("data: " ++ quoted "hi" ++ String nl (String nl "")); NEnd]
  = [CDone].
Proof. split; reflexivity. Qed.

End SSEClaims.

(* ------------------------------------------------------------------ *)
(** ** Citation rendering (ChatMessage.tsx, InlineCitation.tsx) *)

Module Citations.

Record PaperMetadata : Type := {
  paper_id : string;
  title : string;
  abstract : option string;
  year : option string;
  authors : option (list string);
  pdf_url : option string
}.

Record SearchResult : Type := { paper : PaperMetadata; score : Q }.

Definition is_digit (c : ascii) : bool :=
  let n := nat_of_ascii c in Nat.leb 48 n && Nat.leb n 57.

(** [\s] on ASCII text: tab, line feed, vertical tab, form feed, carriage
    return and space. *)
Definition is_space (c : ascii) : bool :=
  let n := nat_of_ascii c in (Nat.leb 9 n && Nat.leb n 13) || Nat.eqb n 32.

Definition is_comma (c : ascii) : bool := Ascii.eqb c ",".
Definition is_dash (c : ascii) : bool := Ascii.eqb c "-".

(** [results[i]]: [undefined] for a negative index or one past the end. *)
Definition js_index {A : Type} (l : list A) (i : Z) : option A :=
  if i <? 0 then None else nth_error l (Z.to_nat i).

(** *** [parseCitationNumbers] *)

(** [text.split(/[,\s]+/).filter(Boolean)]: the maximal runs of
    characters that are neither a comma nor white space. *)
Fixpoint split_tokens (acc : string) (s : string) : list string :=
  match s with
  | EmptyString => if String.eqb acc "" then [] else [acc]
  | String c s' =>
      if is_comma c || is_space c then
        (if String.eqb acc "" then [] else [acc]) ++ split_tokens "" s'
      else split_tokens (acc ++ String c "") s'
  end.

(** [part.split("-")]. *)
Fixpoint split_dash (acc : string) (s : string) : list string :=
  match s with
  | EmptyString => [acc]
  | String c s' =>
      if is_dash c then acc :: split_dash "" s' else split_dash (acc ++ String c "") s'
  end.

Fixpoint has_dash (s : string) : bool :=
  match s with
  | EmptyString => false
  | String c s' => is_dash c || has_dash s'
  end.

Fixpoint all_digits (s : string) : bool :=
  match s with
  | EmptyString => true
  | String c s' => is_digit c && all_digits s'
  end.

(** The value of a string of decimal digits, read left to right. *)
Fixpoint digits_value (acc : Z) (s : string) : Z :=
  match s with
  | EmptyString => acc
  | String c s' => digits_value (10 * acc + (Z.of_nat (nat_of_ascii c) - 48)) s'
  end.

(** The longest prefix of decimal digits. *)
Fixpoint digit_prefix (s : string) : string :=
  match s with
  | String c s' => if is_digit c then String c (digit_prefix s') else EmptyString
  | EmptyString => EmptyString
  end.

(** [Number(piece)] on the pieces [split("-")] produces: [""] is [0], an
    optional [+] followed by decimal digits is their value, and the result
    is [NaN] ([None]) otherwise.  Hexadecimal, fractional and exponent
    literals and [Infinity] are not modelled: the pieces
    [processCitations] passes are digit strings or empty. *)
Definition js_Number (s : string) : option Z :=
  let body := match s with
              | String c s' => if Ascii.eqb c "+" then s' else s
              | EmptyString => s
              end in
  if String.eqb s "" then Some 0
  else if negb (String.eqb body "") && all_digits body then Some (digits_value 0 body)
  else None.

(** [parseInt(s, 10)]: an optional sign, then the longest run of decimal
    digits; [NaN] when that run is empty. *)
Definition js_parseInt (s : string) : option Z :=
  let '(sign, body) :=
    match s with
    | String c s' =>
        if Ascii.eqb c "-" then (-1, s') else if Ascii.eqb c "+" then (1, s') else (1, s)
    | EmptyString => (1, s)
    end in
  let ds := digit_prefix body in
  if String.eqb ds "" then None else Some (sign * digits_value 0 ds).

(** [for (let i = start; i <= end; i++) numbers.push(i)]. *)
Definition Z_range (start stop : Z) : list Z :=
  map (fun k => start + Z.of_nat k) (seq 0 (Z.to_nat (stop - start + 1))).

Definition part_numbers (part : string) : list Z :=
  if has_dash part then
    match split_dash "" part with
    | p1 :: p2 :: _ =>
        match js_Number p1, js_Number p2 with
        | Some a, Some b => Z_range a b
        | _, _ => []
        end
    | _ => []
    end
  else match js_parseInt part with Some n => [n] | None => [] end.

Definition parseCitationNumbers (text : string) : list Z :=
  flat_map part_numbers (split_tokens "" text).

(** *** [processCitations] *)

(** The citation pattern of [processCitations] (an opening bracket, a
    group of digits optionally followed by repetitions of separators then
    digits, a closing bracket) at the start of [s].  Its
    group is a nonempty run of digits and separators that starts and ends
    with a digit, and [\]] lies outside that class, so a match exists
    exactly when the longest such run after [\[] is of that shape and is
    followed by [\]]: then the match is that run. *)
Definition is_cite_char (c : ascii) : bool :=
  is_digit c || is_comma c || is_space c || is_dash c.

Fixpoint span_cite (s : string) : string * string :=
  match s with
  | String c s' =>
      if is_cite_char c then let '(a, b) := span_cite s' in (String c a, b)
      else (EmptyString, s)
  | EmptyString => (EmptyString, EmptyString)
  end.

Fixpoint last_char (s : string) : option ascii :=
  match s with
  | EmptyString => None
  | String c EmptyString => Some c
  | String _ s' => last_char s'
  end.

Definition cite_group_ok (g : string) : bool :=
  match g, last_char g with
  | String c _, Some l => is_digit c && is_digit l
  | _, _ => false
  end.

(** [Some (group, rest)] when the pattern matches at the start of [s]. *)
Definition match_at (s : string) : option (string * string) :=
  match s with
  | String "[" t =>
      let '(g, r) := span_cite t in
      match r with
      | String "]" rest => if cite_group_ok g then Some (g, rest) else None
      | _ => None
      end
  | _ => None
  end.

(** A piece of the rendered output: plain text, or an [InlineCitation]
    with its [citationNumber] and [result] props. *)
Inductive part : Type :=
| PText (s : string)
| PCite (citationNumber : Z) (result : option SearchResult).

(** The [while ((match = citationPattern.exec(children)) !== null)] loop;
    [pending] is the text between [lastIndex] and the current position. *)
Fixpoint scan (fuel : nat) (results : list SearchResult) (pending s : string) : list part :=
  match fuel with
  | O => []
  | S fuel' =>
      match s with
      | EmptyString => if String.eqb pending "" then [] else [PText pending]
      | String c s' =>
          match match_at s with
          | Some (g, rest) =>
              (if String.eqb pending "" then [] else [PText pending])
              ++ map (fun num => PCite num (js_index results (num - 1)))
                     (parseCitationNumbers g)
              ++ scan fuel' results "" rest
          | None => scan fuel' results (pending ++ String c "") s'
          end
      end
  end.

(** React children as [processCitations] sees them. *)
Inductive react_node : Type :=
| RString (s : string)
| RArray (children : list react_node)
| ROther.

Inductive rendered : Type :=
| OString (s : string)
| OFragment (parts : list part)
| OSpans (children : list rendered)
| OOther.

Fixpoint processCitations (children : react_node) (results : list SearchResult) : rendered :=
  match children with
  | RString s =>
      let parts := scan (S (String.length s)) results "" s in
      match parts with [] => OString s | _ => OFragment parts end
  | RArray cs => OSpans (map (fun c => processCitations c results) cs)
  | ROther => OOther
  end.

(** *** [InlineCitation] *)

Inductive citation_view : Type :=
| PlainMarker (text : string)
| CitationPopover (label : string) (paper_id : string) (authors_text : string)
                  (more_authors : bool) (score : Q).

Definition authors_text (p : PaperMetadata) : string :=
  match authors p with
  | Some l => match firstn 3 l with [] => "Unknown authors" | l3 =>
                let j := String.concat ", " l3 in
                if String.eqb j "" then "Unknown authors" else j end
  | None => "Unknown authors"
  end.

Definition InlineCitation (citationNumber : Z) (result : option SearchResult) : citation_view :=
  match result with
  | None => PlainMarker ("[" ++ Z_to_string citationNumber ++ "]")
  | Some r =>
      CitationPopover ("Citation " ++ Z_to_string citationNumber ++ ": " ++ title (paper r))
        (paper_id (paper r)) (authors_text (paper r))
        (match authors (paper r) with Some l => Nat.ltb 3 (length l) | None => false end)
        (score r)
  end.

End Citations.

Module CitationExamples.
Import Citations.

Definition paper_a : PaperMetadata :=
  {| paper_id := "2023.acl-long.1"; title := "A"; abstract := None; year := None;
     authors := None; pdf_url := None |}.
Definition result_a : SearchResult := {| paper := paper_a; score := 1 # 2 |}.

Example parse_range : parseCitationNumbers "1, 3-5" = [1; 3; 4; 5].
Proof. reflexivity. Qed.
Example parse_odd : parseCitationNumbers "-3, 12abc 5-2" = [0; 1; 2; 3; 12].
Proof. reflexivity. Qed.
Example process_one :
  processCitations (RString "see [1] and [2, 3-4]") [result_a]
  = OFragment [PText "see "; PCite 1 (Some result_a); PText " and ";
               PCite 2 None; PCite 3 None; PCite 4 None].
Proof. reflexivity. Qed.
Example inline_missing : InlineCitation 12 None = PlainMarker "[12]".
Proof. reflexivity. Qed.

End CitationExamples.

Module CitationFacts.
Import Citations.

(** Every citation piece of a rendering satisfies [P]. *)
Fixpoint all_cites (P : Z -> option SearchResult -> Prop) (o : rendered) : Prop :=
  match o with
  | OString _ | OOther => True
  | OFragment ps =>
      Forall (fun p => match p with PCite n r => P n r | PText _ => True end) ps
  | OSpans cs =>
      (fix go (cs : list rendered) : Prop :=
         match cs with [] => True | c :: r => all_cites P c /\ go r end) cs
  end.

Definition bound_to (results : list SearchResult) (n : Z) (r : option SearchResult) : Prop :=
  r = js_index results (n - 1).

Lemma scan_binds fuel results pending s :
  Forall (fun p => match p with PCite n r => bound_to results n r | PText _ => True end)
         (scan fuel results pending s).
Proof.
  revert pending s. induction fuel as [|fuel IH]; intros pending s; [constructor|].
  destruct s as [|c s']; cbn [scan].
  - destruct (String.eqb pending ""); repeat constructor.
  - destruct (match_at (String c s')) as [[g rest]|]; [|apply IH].
    apply Forall_app; split; [destruct (String.eqb pending ""); repeat constructor|].
    apply Forall_app; split; [|apply IH].
    apply Forall_forall. intros p Hp. apply in_map_iff in Hp as (num & <- & _).
    reflexivity.
Qed.

Lemma processCitations_binds results :
  forall children, all_cites (bound_to results) (processCitations children results).
Proof.
  fix IH 1. intros [s|cs|]; cbn [processCitations all_cites].
  - destruct (scan (S (String.length s)) results "" s) as [|p ps] eqn:E; [exact I|].
    rewrite <- E. apply scan_binds.
  - induction cs as [|c cs IHcs]; [exact I|]. split; [apply IH | exact IHcs].
  - exact I.
Qed.

Lemma all_cites_impl (P Q : Z -> option SearchResult -> Prop) :
  (forall n r, P n r -> Q n r) -> forall o, all_cites P o -> all_cites Q o.
Proof.
  intros H. fix IH 1. intros [s|ps|cs|]; cbn [all_cites]; intros Ho; try exact I.
  - eapply Forall_impl; [|exact Ho]. intros [t|n r]; auto.
  - induction cs as [|c cs IHcs]; [exact I|]. destruct Ho as [Hc Hcs].
    split; [exact (IH c Hc) | exact (IHcs Hcs)].
Qed.

Lemma is_digit_not (c d : ascii) : is_digit c = true -> is_digit d = false -> Ascii.eqb c d = false.
Proof.
  intros Hc Hd. destruct (Ascii.eqb c d) eqn:E; [|reflexivity].
  apply Ascii.eqb_eq in E. subst. congruence.
Qed.

Lemma digit_prefix_all (d : string) : all_digits d = true -> digit_prefix d = d.
Proof.
  induction d as [|c d IH]; simpl; [reflexivity|].
  intros H. apply andb_true_iff in H as [Hc Hd]. rewrite Hc, IH by exact Hd. reflexivity.
Qed.

Lemma has_dash_digits (d : string) : all_digits d = true -> has_dash d = false.
Proof.
  induction d as [|c d IH]; simpl; [reflexivity|].
  intros H. apply andb_true_iff in H as [Hc Hd].
  unfold is_dash. rewrite (is_digit_not c "-" Hc eq_refl), IH by exact Hd. reflexivity.
Qed.

Lemma split_tokens_digits (acc d : string) :
  all_digits d = true ->
  split_tokens acc d = if String.eqb (acc ++ d) "" then [] else [acc ++ d].
Proof.
  revert acc. induction d as [|c d IH]; intros acc H; simpl.
  - now rewrite str_app_nil_r.
  - apply andb_true_iff in H as [Hc Hd].
    unfold is_comma. rewrite (is_digit_not c "," Hc eq_refl).
    replace (is_space c) with false
      by (unfold is_digit, is_space in *; destruct (nat_of_ascii c) as [|k]; [discriminate|];
          apply andb_true_iff in Hc as [H1 H2]; apply Nat.leb_le in H1;
          symmetry; apply orb_false_iff; split;
          [apply andb_false_iff; right; apply Nat.leb_gt; lia | apply Nat.eqb_neq; lia]).
    cbn [orb]. rewrite IH by exact Hd. rewrite str_app_assoc. reflexivity.
Qed.

Lemma parse_digits (d : string) :
  d <> "" -> all_digits d = true -> parseCitationNumbers d = [digits_value 0 d].
Proof.
  intros Hne Hd. unfold parseCitationNumbers. rewrite split_tokens_digits by exact Hd.
  cbn [String.append]. destruct (String.eqb d "") eqn:E; [apply String.eqb_eq in E; contradiction|].
  cbn [flat_map]. unfold part_numbers. rewrite has_dash_digits by exact Hd.
  destruct d as [|c d']; [contradiction|]. simpl in Hd. apply andb_true_iff in Hd as [Hc Hd'].
  unfold js_parseInt. rewrite (is_digit_not c "-" Hc eq_refl), (is_digit_not c "+" Hc eq_refl).
  rewrite digit_prefix_all by (simpl; rewrite Hc; exact Hd'). rewrite E.
  rewrite app_nil_r. f_equal. lia.
Qed.

Lemma span_cite_digits (d r : string) :
  all_digits d = true -> span_cite (d ++ String "]" r) = (d, String "]" r).
Proof.
  induction d as [|c d IH]; intros H; [reflexivity|].
  simpl in H. apply andb_true_iff in H as [Hc Hd].
  cbn [String.append span_cite]. unfold is_cite_char. rewrite Hc. cbn [orb].
  rewrite IH by exact Hd. reflexivity.
Qed.

Lemma last_char_digits (d : string) :
  d <> "" -> all_digits d = true -> exists l, last_char d = Some l /\ is_digit l = true.
Proof.
  induction d as [|c d IH]; intros Hne H; [contradiction|].
  simpl in H. apply andb_true_iff in H as [Hc Hd].
  destruct d as [|c' d'].
  - exists c. split; [reflexivity | exact Hc].
  - destruct (IH ltac:(discriminate) Hd) as (l & Hl & Hdl). exists l. split; [exact Hl | exact Hdl].
Qed.

Lemma cite_group_digits (d : string) :
  d <> "" -> all_digits d = true -> cite_group_ok d = true.
Proof.
  intros Hne H. destruct (last_char_digits d Hne H) as (l & Hl & Hdl).
  destruct d as [|c d']; [contradiction|].
  unfold cite_group_ok. rewrite Hl.
  simpl in H. apply andb_true_iff in H as [Hc _]. now rewrite Hc, Hdl.
Qed.

Lemma processCitations_marker results (d : string) :
  d <> "" -> all_digits d = true ->
  processCitations (RString ("[" ++ d ++ "]")) results
  = OFragment [PCite (digits_value 0 d) (js_index results (digits_value 0 d - 1))].
Proof.
  intros Hne Hd. unfold processCitations.
  change (String.length ("[" ++ d ++ "]")) with (S (String.length (d ++ "]"))).
  cbn [scan String.append]. unfold match_at.
  rewrite span_cite_digits by exact Hd. rewrite cite_group_digits by assumption.
  rewrite parse_digits by assumption.
  destruct (String.length (d ++ "]")); reflexivity.
Qed.

Lemma js_index_out_of_range {A : Type} (l : list A) (n : Z) :
  n < 1 \/ Z.of_nat (length l) < n -> js_index l (n - 1) = None.
Proof.
  intros H. unfold js_index. destruct (n - 1 <? 0) eqn:E; [reflexivity|].
  apply Z.ltb_ge in E. apply nth_error_None. lia.
Qed.

End CitationFacts.

Module CitationClaims.
Import Citations CitationFacts.

(** ** C2 Every [InlineCitation] that [processCitations] produces for a
    number [n] gets [results[n - 1]] as its result (the list indexed from
    1), for any children and any result list; and a marker [[n]] with [n]
    written in decimal digits renders as exactly that citation. *)
Theorem processCitations_one_indexed results :
  (forall children, all_cites (bound_to results) (processCitations children results))
  /\ (forall d, d <> "" -> all_digits d = true ->
        processCitations (RString ("[" ++ d ++ "]")) results
        = OFragment [PCite (digits_value 0 d) (js_index results (digits_value 0 d - 1))]).
Proof.
  split; [apply processCitations_binds | apply processCitations_marker].
Qed.

Lemma processCitations_one_indexed_witness :
  processCitations (RString ("[" ++ "2" ++ "]")) [CitationExamples.result_a]
  = OFragment [PCite 2 None].
Proof.
  apply (proj2 (processCitations_one_indexed [CitationExamples.result_a]) "2");
    [discriminate | reflexivity].
Defined.

(** ** C10 A citation number with no entry in the result list ([n < 1] or
    [n] past its length) renders as the plain text marker [[n]]. *)
Theorem InlineCitation_out_of_range results :
  forall children,
    all_cites (fun n r => n < 1 \/ Z.of_nat (length results) < n ->
                          InlineCitation n r = PlainMarker ("[" ++ Z_to_string n ++ "]"))
              (processCitations children results).
Proof.
  intros children. eapply all_cites_impl; [|apply processCitations_binds].
  intros n r Hr Hout. unfold bound_to in Hr. subst r.
  rewrite js_index_out_of_range by exact Hout. reflexivity.
Qed.

Lemma InlineCitation_out_of_range_witness :
  InlineCitation 3 (js_index [CitationExamples.result_a] (3 - 1)) = PlainMarker "[3]".
Proof.
  pose proof (InlineCitation_out_of_range [CitationExamples.result_a] (RString "[3]")) as H.
  cbn in H. inversion H as [|p ps Hp _]. apply Hp. right. simpl. lia.
Defined.

(** ** C9 (code bug) A token ["-3"], which the citation pattern lets
    through in a marker such as [[1, -3]], is split at its dash into [""]
    and ["3"]; [Number("")] is [0], which passes the [isNaN] guard, so the
    token yields the run [0, 1, 2, 3] rather than [-3] or nothing. *)
Theorem parseCitationNumbers_dash_token_bug :
  parseCitationNumbers "1, -3" = [1; 0; 1; 2; 3]
  /\ processCitations (RString "see [1, -3]") []
     = OFragment [PText "see "; PCite 1 None; PCite 0 None; PCite 1 None; PCite 2 None; PCite 3 None].
Proof. split; vm_compute; reflexivity. Qed.

End CitationClaims.

(* ------------------------------------------------------------------ *)
(** ** Filter display (ChatMessage.tsx, MonitoringPanel.tsx) *)

Module Filters.

(** [YearFilter]; [None] stands for [null] or an absent property. *)
Record YearFilter : Type := {
  exact : option Z;
  min_year : option Z;
  max_year : option Z
}.

(** The fields of [SearchFilters] that [formatAppliedFilters] reads. *)
Record SearchFilters : Type := {
  year : option YearFilter;
  bibkey : option string;
  language : option string;
  authors : option (list string);
  has_awards : option bool
}.

Definition truthy_num (n : option Z) : bool :=
  match n with Some k => negb (k =? 0) | None => false end.

Definition truthy_str (s : option string) : bool :=
  match s with Some t => negb (String.eqb t "") | None => false end.

(** [x || "..."] for an optional year, printed in a template literal. *)
Definition or_dots (n : option Z) : string :=
  match n with Some k => if k =? 0 then "..." else Z_to_string k | None => "..." end.

Definition year_parts (f : SearchFilters) : list string :=
  match year f with
  | Some y =>
      if truthy_num (exact y) then
        ["year: " ++ match exact y with Some e => Z_to_string e | None => "" end]
      else if truthy_num (min_year y) || truthy_num (max_year y) then
        ["year: " ++ or_dots (min_year y) ++ "-" ++ or_dots (max_year y)]
      else []
  | None => []
  end.

Definition authors_parts (f : SearchFilters) : list string :=
  match authors f with
  | Some (_ :: _ as l) => ["authors: " ++ String.concat ", " l]
  | _ => []
  end.

Definition awards_parts (f : SearchFilters) : list string :=
  match has_awards f with Some true => ["award-winning"] | _ => [] end.

Definition language_parts (f : SearchFilters) : list string :=
  if truthy_str (language f) then
    ["language: " ++ match language f with Some l => l | None => "" end]
  else [].

Definition bibkey_parts (f : SearchFilters) : list string :=
  if truthy_str (bibkey f) then
    ["bibkey: " ++ match bibkey f with Some b => b | None => "" end]
  else [].

Definition middle_dot_sep : string := " " ++ String "194"%char (String "183"%char " ").

(** [formatAppliedFilters]: the parts are pushed in this order and joined
    with a middle dot. *)
Definition formatAppliedFilters (filters : option SearchFilters) : option string :=
  match filters with
  | None => None
  | Some f =>
      let parts := (year_parts f ++ authors_parts f ++ awards_parts f
                    ++ language_parts f ++ bibkey_parts f)%list in
      match parts with [] => None | _ => Some (String.concat middle_dot_sep parts) end
  end.

(** The monitoring panel receives the filters as parsed JSON. *)
Definition opt_json (n : option Z) : json :=
  match n with Some k => JNum k | None => JNull end.

Definition year_json (y : YearFilter) : json :=
  JObj [("exact", opt_json (exact y)); ("min_year", opt_json (min_year y));
        ("max_year", opt_json (max_year y))].

Definition truthy_field (v : json) (k : string) : option json :=
  match js_get v k with
  | Some (Some w) => if truthy w then Some w else None
  | _ => None
  end.

Definition join_elem (v : json) : string :=
  match v with JNull => "" | _ => js_to_string v end.

(** [formatFilterValue(key, value)] of the monitoring panel. *)
Definition formatFilterValue (key : string) (value : json) : string :=
  match value with
  | JArr l => String.concat ", " (map join_elem l)
  | JObj fs =>
      if String.eqb key "year" then
        let parts :=
          (match truthy_field value "exact" with
           | Some w => [("exact: " ++ js_to_string w)%string] | None => [] end
           ++ match truthy_field value "min_year" with
              | Some w => [("from: " ++ js_to_string w)%string] | None => [] end
           ++ match truthy_field value "max_year" with
              | Some w => [("to: " ++ js_to_string w)%string] | None => [] end)%list in
        match parts with [] => "year filter" | _ => String.concat ", " parts end
      else
        let entries := map (fun kv => fst kv ++ ": " ++ js_to_string (snd kv))
                           (filter (fun kv => match snd kv with JNull => false | _ => true end) fs) in
        match entries with [] => key | _ => String.concat ", " entries end
  | _ => js_to_string value
  end.

End Filters.

Module FilterClaims.
Import Filters.

Definition both_forms : YearFilter := {| exact := Some 2020; min_year := Some 2018; max_year := Some 2022 |}.

(** ** C5 (counterexample) With both forms present, the monitoring panel
    shows the exact year and the bounds side by side. *)
Lemma formatFilterValue_year_both_cex :
  formatFilterValue "year" (year_json both_forms) = "exact: 2020, from: 2018, to: 2022".
Proof. reflexivity. Qed.

Definition bound_part (label : string) (n : option Z) : list string :=
  if truthy_num n then [label ++ or_dots n] else [].

(** ** C5 (amended) When the exact year is set (and non-zero), the year
    part of the chat filter indicator is [year: <exact>] alone, while the
    monitoring panel lists [exact: <exact>] followed by each set bound. *)
Theorem year_filter_exact_display (f : SearchFilters) (y : YearFilter) (e : Z) :
  year f = Some y -> exact y = Some e -> e <> 0 ->
  year_parts f = ["year: " ++ Z_to_string e]
  /\ formatFilterValue "year" (year_json y)
     = String.concat ", " (("exact: " ++ Z_to_string e)%string
                           :: bound_part "from: " (min_year y) ++ bound_part "to: " (max_year y))%list.
Proof.
  intros Hy He Hne. split.
  - unfold year_parts. rewrite Hy, He. unfold truthy_num.
    replace (e =? 0) with false by (symmetry; apply Z.eqb_neq; exact Hne). reflexivity.
  - destruct y as [ex mn mx]. cbn in He. subst ex.
    unfold formatFilterValue, year_json, truthy_field, bound_part, truthy_num, or_dots.
    cbn [exact min_year max_year js_get assoc_last String.eqb].
    assert (Ee : (e =? 0) = false) by (apply Z.eqb_neq; exact Hne).
    destruct mn as [m|]; destruct mx as [x|]; simpl; rewrite ?Ee; simpl;
      repeat match goal with |- context [?a =? 0] => destruct (a =? 0) end;
      reflexivity.
Qed.

Lemma year_filter_exact_display_witness :
  year_parts {| year := Some both_forms; bibkey := None; language := None;
                authors := None; has_awards := None |} = ["year: 2020"]
  /\ formatFilterValue "year" (year_json both_forms)
     = String.concat ", " (("exact: " ++ Z_to_string 2020)%string
           :: bound_part "from: " (min_year both_forms) ++ bound_part "to: " (max_year both_forms))%list.
Proof.
  apply (year_filter_exact_display
           {| year := Some both_forms; bibkey := None; language := None;
              authors := None; has_awards := None |} both_forms 2020);
    [reflexivity | reflexivity | discriminate].
Defined.

End FilterClaims.

(* ------------------------------------------------------------------ *)
(** ** Aggregator (hybrid rank fusion) *)

Module Aggregator.

Open Scope Q_scope.

(** One entry of a sub-query's ranked list from the vector index. *)
Record Candidate : Type := { c_paper_id : string; c_similarity : Q }.

(** Per-paper accumulator ([RankedCandidate]): the index of the first
    sub-query that returned it, its RRF sum and its raw similarities. *)
Record Acc : Type := {
  a_paper_id : string;
  a_first : nat;
  a_rrf : Q;
  a_sims : list Q
}.

(** A fused candidate before truncation. *)
Record Fused : Type := { f_paper_id : string; f_first : nat; f_score : Q }.

(** [SearchResult] as returned (paper reduced to its identifier). *)
Record SearchResult : Type := { r_paper_id : string; r_score : Q }.

(** Modelled from the spec: the aggregator of the backend (aggregator.py,
    not among the sources) adds [1 / (RRF_K + rank)] for a paper at
    1-indexed [rank] of a sub-query's list. *)
Definition rrf_term (RRF_K : Z) (rank : nat) : Q := / inject_Z (RRF_K + Z.of_nat rank).

(** Modelled from the spec: record one hit of paper [pid] in sub-query
    [qi]; a new paper is appended, so accumulators stay in first-seen
    order. *)
Fixpoint add_hit (pid : string) (qi : nat) (contrib sim : Q) (acc : list Acc) : list Acc :=
  match acc with
  | [] => [{| a_paper_id := pid; a_first := qi; a_rrf := contrib; a_sims := [sim] |}]
  | a :: r =>
      if String.eqb (a_paper_id a) pid then
        {| a_paper_id := a_paper_id a; a_first := a_first a; a_rrf := a_rrf a + contrib;
           a_sims := (a_sims a ++ [sim])%list |} :: r
      else a :: add_hit pid qi contrib sim r
  end.

Fixpoint collect_list (RRF_K : Z) (qi rank : nat) (l : list Candidate) (acc : list Acc) : list Acc :=
  match l with
  | [] => acc
  | c :: r =>
      collect_list RRF_K qi (S rank) r
        (add_hit (c_paper_id c) qi (rrf_term RRF_K rank) (c_similarity c) acc)
  end.

Fixpoint collect_all (RRF_K : Z) (qi : nat) (lists : list (list Candidate)) (acc : list Acc) : list Acc :=
  match lists with
  | [] => acc
  | l :: ls => collect_all RRF_K (S qi) ls (collect_list RRF_K qi 1 l acc)
  end.

Definition Qsum (l : list Q) : Q := fold_right Qplus 0 l.

(** Modelled from the spec: the mean of the similarities a paper got. *)
Definition avg_similarity (sims : list Q) : Q := Qsum sims / inject_Z (Z.of_nat (length sims)).

Definition max_rrf (accs : list Acc) : Q := fold_right (fun a m => Qmax (a_rrf a) m) 0 accs.

(** Modelled from the spec: steps 1 to 4, [w * avg_similarity + (1 - w) *
    rrf / max_rrf]. *)
Definition fuse (RRF_K : Z) (w : Q) (lists : list (list Candidate)) : list Fused :=
  let accs := collect_all RRF_K 0 lists [] in
  let mx := max_rrf accs in
  map (fun a => {| f_paper_id := a_paper_id a; f_first := a_first a;
                   f_score := w * avg_similarity (a_sims a) + (1 - w) * (a_rrf a / mx) |}) accs.

(** Modelled from the spec: the order of step 5, fused score descending,
    then earliest sub-query, then [paper_id]. *)
Definition ranks_before (a b : Fused) : bool :=
  match Qcompare (f_score a) (f_score b) with
  | Gt => true
  | Lt => false
  | Eq => Nat.ltb (f_first a) (f_first b)
          || (Nat.eqb (f_first a) (f_first b) && String.leb (f_paper_id a) (f_paper_id b))
  end.

Fixpoint insert (x : Fused) (l : list Fused) : list Fused :=
  match l with
  | [] => [x]
  | y :: r => if ranks_before x y then x :: y :: r else y :: insert x r
  end.

Fixpoint sort (l : list Fused) : list Fused :=
  match l with [] => [] | x :: r => insert x (sort r) end.

(** Modelled from the spec: [aggregate(per_subquery_results, top_k)]
    before the papers are attached; [RRF_K] defaults to 60 and [w] to
    0.3. *)
Definition aggregate_ranked (RRF_K : Z) (w : Q) (lists : list (list Candidate)) (top_k : nat)
  : list Fused :=
  firstn top_k (sort (fuse RRF_K w lists)).

Definition aggregate (RRF_K : Z) (w : Q) (lists : list (list Candidate)) (top_k : nat)
  : list SearchResult :=
  map (fun f => {| r_paper_id := f_paper_id f; r_score := f_score f |})
      (aggregate_ranked RRF_K w lists top_k).

End Aggregator.

Module AggregatorFacts.
Import Aggregator.
Open Scope Q_scope.

Definition RB (a b : Fused) : Prop := ranks_before a b = true.

(** The order [ranks_before] spelled out. *)
Definition fusion_order (a b : Fused) : Prop :=
  f_score b < f_score a
  \/ (f_score a == f_score b
      /\ ((f_first a < f_first b)%nat
          \/ (f_first a = f_first b /\ String.leb (f_paper_id a) (f_paper_id b) = true))).

Lemma ranks_before_spec a b : RB a b -> fusion_order a b.
Proof.
  unfold RB, ranks_before, fusion_order.
  destruct (Qcompare_spec (f_score a) (f_score b)) as [E|L|G]; intros H.
  - right. split; [exact E|].
    apply orb_true_iff in H as [H|H].
    + left. now apply Nat.ltb_lt.
    + apply andb_true_iff in H as [H1 H2]. right. split; [now apply Nat.eqb_eq | exact H2].
  - discriminate.
  - left. exact G.
Qed.

Lemma ranks_before_total a b : ranks_before a b = false -> ranks_before b a = true.
Proof.
  unfold ranks_before. rewrite <- (Qcompare_antisym (f_score a) (f_score b)).
  destruct (f_score a ?= f_score b); cbn [CompOpp]; intros H; try discriminate; try reflexivity.
  apply orb_false_iff in H as [H1 H2]. apply Nat.ltb_ge in H1.
  destruct (Nat.eq_dec (f_first a) (f_first b)) as [Eq|Ne].
  - rewrite Eq, Nat.eqb_refl in H2. cbn [andb] in H2.
    apply orb_true_iff. right. rewrite Eq, Nat.eqb_refl. cbn [andb].
    destruct (String.leb_total (f_paper_id a) (f_paper_id b)) as [L|L]; congruence.
  - apply orb_true_iff. left. apply Nat.ltb_lt. lia.
Qed.

Lemma insert_hd (x y : Fused) l : HdRel RB y l -> RB y x -> HdRel RB y (insert x l).
Proof.
  intros Hhd Hyx. destruct l as [|z l]; cbn [insert].
  - now constructor.
  - destruct (ranks_before x z); constructor; [exact Hyx|]. now inversion Hhd.
Qed.

Lemma insert_sorted x l : Sorted RB l -> Sorted RB (insert x l).
Proof.
  induction 1 as [|y l Hs IH Hhd]; cbn [insert]; [now repeat constructor|].
  destruct (ranks_before x y) eqn:E.
  - constructor; [now constructor | now constructor].
  - constructor; [exact IH|]. apply insert_hd; [exact Hhd|]. now apply ranks_before_total.
Qed.

Lemma sort_sorted l : Sorted RB (sort l).
Proof. induction l as [|x l IH]; cbn [sort]; [constructor | now apply insert_sorted]. Qed.

Lemma insert_perm x l : Permutation (insert x l) (x :: l).
Proof.
  induction l as [|y l IH]; cbn [insert]; [reflexivity|].
  destruct (ranks_before x y); [reflexivity|].
  rewrite IH. apply perm_swap.
Qed.

Lemma sort_perm l : Permutation (sort l) l.
Proof.
  induction l as [|x l IH]; cbn [sort]; [reflexivity|].
  rewrite insert_perm. now apply perm_skip.
Qed.

Lemma firstn_sorted {A : Type} (R : A -> A -> Prop) n l :
  Sorted R l -> Sorted R (firstn n l).
Proof.
  revert n. induction l as [|a l IH]; intros n Hs; [now rewrite firstn_nil|].
  destruct n as [|n]; cbn [firstn]; [constructor|].
  apply Sorted_inv in Hs as [Hs Hhd]. constructor; [now apply IH|].
  destruct l as [|b l]; [now rewrite firstn_nil|]. destruct n; cbn [firstn]; [constructor|].
  constructor. now inversion Hhd.
Qed.

Lemma sorted_impl {A : Type} (R R' : A -> A -> Prop) l :
  (forall a b, R a b -> R' a b) -> Sorted R l -> Sorted R' l.
Proof.
  intros H. induction 1 as [|a l Hs IH Hhd]; constructor; [exact IH|].
  destruct Hhd; constructor. now apply H.
Qed.

Lemma sorted_map {A B : Type} (g : A -> B) (R : B -> B -> Prop) l :
  Sorted (fun a b => R (g a) (g b)) l -> Sorted R (map g l).
Proof.
  induction 1 as [|a l Hs IH Hhd]; cbn [map]; constructor; [exact IH|].
  destruct Hhd; constructor. exact H.
Qed.

End AggregatorFacts.

Module AggregatorClaims.
Import Aggregator AggregatorFacts.
Open Scope Q_scope.

(** ** C3 The aggregated list is the full fused candidate list sorted by
    fused score descending, ties broken by the earliest sub-query then by
    [paper_id], truncated to [top_k]; so its scores are non-increasing by
    position. *)
Theorem aggregate_sorted_truncated (RRF_K : Z) (w : Q) (lists : list (list Candidate)) (top_k : nat) :
  (exists full, Permutation full (fuse RRF_K w lists)
                /\ Sorted fusion_order full
                /\ aggregate_ranked RRF_K w lists top_k = firstn top_k full)
  /\ Sorted fusion_order (aggregate_ranked RRF_K w lists top_k)
  /\ (length (aggregate RRF_K w lists top_k) <= top_k)%nat
  /\ Sorted (fun a b => r_score b <= r_score a) (aggregate RRF_K w lists top_k).
Proof.
  assert (Hs : Sorted fusion_order (sort (fuse RRF_K w lists)))
    by (eapply sorted_impl; [apply ranks_before_spec | apply sort_sorted]).
  split; [|split; [|split]].
  - exists (sort (fuse RRF_K w lists)). split; [apply sort_perm|]. split; [exact Hs | reflexivity].
  - now apply firstn_sorted.
  - unfold aggregate, aggregate_ranked. rewrite length_map, length_firstn. lia.
  - unfold aggregate. apply sorted_map. cbn [r_score].
    eapply sorted_impl; [|apply firstn_sorted; exact Hs].
    intros a b [H|[H _]]; [now apply Qlt_le_weak | rewrite H; apply Qle_refl].
Qed.

End AggregatorClaims.


Module SSEExtra.
Import SSE SSEExamples SSEFacts SSEMore.

(** The [data:] lines of [ds], each ended by a newline. *)
Definition data_lines (ds : list string) : string :=
  fold_right (fun d acc => "data: " ++ d ++ String nl acc) "" ds.

Lemma fold_data_text (ds : list string) (z : string) :
  fold_right (fun d acc => "data: " ++ d ++ String nl acc) z ds = data_lines ds ++ z.
Proof.
  induction ds as [|d ds IH]; [reflexivity|].
  cbn [fold_right data_lines]. fold (data_lines ds). rewrite IH.
  rewrite !str_app_assoc. reflexivity.
Qed.

Lemma split_data_text (ds : list string) (t : string) :
  Forall (fun d => has_nl d = false) ds ->
  split_from "" (data_lines ds ++ t) = (map (fun d => ("data: " ++ d)%string) ds ++ split_from "" t)%list.
Proof.
  induction 1 as [|d ds Hd Hds IH]; [reflexivity|].
  cbn [data_lines fold_right map]. fold (data_lines ds).
  replace (("data: " ++ d ++ String nl (data_lines ds)) ++ t)
    with (("data: " ++ d) ++ String nl (data_lines ds ++ t)) by (rewrite !str_app_assoc; reflexivity).
  rewrite split_from_line by (rewrite has_nl_app; simpl; exact Hd).
  rewrite IH. reflexivity.
Qed.

Lemma last_split_nl (acc s : string) : last (split_from acc (s ++ String nl "")) "" = "".
Proof.
  rewrite split_from_concat, last_app_nonempty by discriminate. reflexivity.
Qed.

Lemma process_read_extra_data parse cbs b x e ds d y :
  Forall (fun s => has_nl s = false) ds -> has_nl d = false ->
  process_read parse cbs b (x ++ multi_data_message e (ds ++ [d]) ++ y)
  = process_read parse cbs b (x ++ sse_message e d ++ y).
Proof.
  intros Hds Hd. unfold process_read, split_lines, multi_data_message, sse_message.
  rewrite fold_right_app. cbn [fold_right]. rewrite fold_data_text.
  set (P := b ++ x ++ "event: " ++ e ++ String nl "").
  set (Z := "data: " ++ d ++ String nl (String nl "")).
  assert (E1 : b ++ x ++ ("event: " ++ e ++ String nl (data_lines ds ++ Z)) ++ y
               = P ++ (data_lines ds ++ (Z ++ y))).
  { unfold P. rewrite !str_app_assoc. cbn [String.append]. rewrite ?str_app_assoc. reflexivity. }
  assert (E2 : b ++ x ++ ("event: " ++ e ++ String nl Z) ++ y = P ++ (Z ++ y)).
  { unfold P. rewrite !str_app_assoc. cbn [String.append]. rewrite ?str_app_assoc. reflexivity. }
  assert (EZ : split_from "" (Z ++ y) = ("data: " ++ d) :: "" :: split_from "" y).
  { unfold Z.
    replace (("data: " ++ d ++ String nl (String nl "")) ++ y)
      with (("data: " ++ d) ++ String nl (String nl y)) by (rewrite !str_app_assoc; reflexivity).
    rewrite split_from_line by exact Hd. reflexivity. }
  assert (EP : last (split_from "" P) "" = "").
  { unfold P. rewrite <- !str_app_assoc. apply last_split_nl. }
  rewrite E1, E2, (split_from_concat "" P (data_lines ds ++ (Z ++ y))), (split_from_concat "" P (Z ++ y)), EP.
  rewrite split_data_text by exact Hds. rewrite EZ.
  assert (Hne : forall A (a : A) l, a :: l <> []) by discriminate.
  rewrite !removelast_app by (apply Hne || (destruct ds; discriminate)).
  rewrite !(last_app_nonempty _ _ "") by (apply Hne || (destruct ds; discriminate)).
  rewrite (removelast_cons_nonempty ("data: " ++ d)) by discriminate.
  rewrite !fold_left_app. cbn [fold_left]. rewrite fold_data_lines, !process_data_line.
  reflexivity.
Qed.

(** ** X1 When an event carries several [data:] lines, only the last one
    reaches the callback: each [data:] line overwrites [currentData].  For
    an event received within one read, anywhere in the stream (after any
    earlier reads and any text of its own read), the stream gives exactly
    the callbacks it gives when the event has that single [data:] line. *)
Theorem searchStream_last_data_line_wins parse cbs statusText pre x e ds d y rest :
  Forall (fun s => has_nl s = false) ds -> has_nl d = false ->
  run parse cbs (NResponse true statusText true :: map NChunk pre
                 ++ NChunk (x ++ multi_data_message e (ds ++ [d]) ++ y) :: rest)
  = run parse cbs (NResponse true statusText true :: map NChunk pre
                   ++ NChunk (x ++ sse_message e d ++ y) :: rest).
Proof.
  intros Hds Hd. cbn [run negb].
  apply read_loop_chunks_congr; [| reflexivity | reflexivity].
  intros b Hb. cbn [read_loop]. rewrite process_read_extra_data by assumption. reflexivity.
Qed.

Lemma searchStream_last_data_line_wins_witness :
  run sample_parse all_cbs
    (NResponse true "OK" true :: map NChunk [sse_message "metadata" "{}"]
     ++ NChunk ("" ++ multi_data_message "chunk" (["{}"] ++ [quoted "hi"]) ++ sse_message "done" "{}")
     :: [NEnd])
  = run sample_parse all_cbs
    (NResponse true "OK" true :: map NChunk [sse_message "metadata" "{}"]
     ++ NChunk ("" ++ sse_message "chunk" (quoted "hi") ++ sse_message "done" "{}") :: [NEnd]).
Proof.
  apply (searchStream_last_data_line_wins sample_parse all_cbs "OK" [sse_message "metadata" "{}"] ""
           "chunk" ["{}"] (quoted "hi") (sse_message "done" "{}") [NEnd]);
    [repeat constructor | reflexivity].
Defined.

(** ** X2 A read boundary inside a line is harmless: when the text of a
    read holds no newline, delivering it and the next read separately
    gives the same callbacks as delivering them as one read, whatever
    reads came before (the incomplete line waits in [buffer]). *)
Theorem searchStream_split_inside_line parse cbs statusText pre t1 t2 rest :
  has_nl t1 = false ->
  run parse cbs (NResponse true statusText true :: map NChunk pre ++ NChunk t1 :: NChunk t2 :: rest)
  = run parse cbs (NResponse true statusText true :: map NChunk pre ++ NChunk (t1 ++ t2) :: rest).
Proof.
  intros Ht1. cbn [run negb]. apply read_loop_chunks_congr; [| reflexivity | reflexivity].
  intros b Hb. cbn [read_loop].
  rewrite (process_read_unfold parse cbs b t1 Hb), split_from_no_nl by exact Ht1.
  cbn zeta. cbn [removelast last fold_left log aborted app].
  rewrite process_read_unfold by (rewrite has_nl_app, Hb; exact Ht1).
  rewrite process_read_unfold by exact Hb.
  rewrite split_from_app by exact Ht1. reflexivity.
Qed.

Lemma searchStream_split_inside_line_witness :
  has_nl "event: chu" = false /\
  run sample_parse all_cbs
    [NResponse true "OK" true; NChunk "event: chu"; NChunk ("nk" ++ String nl ("data: " ++ quoted "hi" ++ String nl (String nl ""))); NEnd]
  = run sample_parse all_cbs
    [NResponse true "OK" true; NChunk ("event: chu" ++ "nk" ++ String nl ("data: " ++ quoted "hi" ++ String nl (String nl ""))); NEnd].
Proof.
  split; [reflexivity|].
  exact (searchStream_split_inside_line sample_parse all_cbs "OK" [] "event: chu"
           ("nk" ++ String nl ("data: " ++ quoted "hi" ++ String nl (String nl ""))) [NEnd] eq_refl).
Defined.

(** ** X3 A message is dispatched only at an empty line: when no line of
    the response text is empty (for instance when the server ends its
    lines with CRLF, so that a separator line is a lone carriage return),
    no callback runs except the [onDone] after the end of the body, however
    the text is split into reads. *)
Theorem searchStream_no_blank_line_only_done parse cbs statusText ts rest :
  no_blank_line (String.concat "" ts) = true ->
  run parse cbs (NResponse true statusText true :: map NChunk ts ++ NEnd :: rest) = final_done cbs.
Proof.
  intros H. cbn [run negb]. apply read_loop_no_blank; [reflexivity | exact H].
Qed.

Definition cr : ascii := "013"%char.

Lemma searchStream_no_blank_line_only_done_witness :
  no_blank_line (String.concat "" ["event: chunk" ++ String cr (String nl "data: ");
                                   quoted "hi" ++ String cr (String nl (String cr (String nl "")))]) = true /\
  run sample_parse all_cbs
    [NResponse true "OK" true; NChunk ("event: chunk" ++ String cr (String nl "data: "));
     NChunk (quoted "hi" ++ String cr (String nl (String cr (String nl "")))); NEnd] = [CDone].
Proof.
  split; [vm_compute; reflexivity|].
  exact (searchStream_no_blank_line_only_done sample_parse all_cbs "OK"
           ["event: chunk" ++ String cr (String nl "data: ");
            quoted "hi" ++ String cr (String nl (String cr (String nl "")))] [] (eq_refl true)).
Defined.

(** ** X4 Only [onError] can run unless [fetch] resolved with an ok
    response that has a body: any other callback ([onMetadata], [onChunk],
    [onDone]) implies such a response, so an HTTP error or a failed
    request never reaches [onDone]. *)
Theorem searchStream_callbacks_need_ok_response parse cbs tr c :
  In c (run parse cbs tr) -> (forall m, c <> CError m) ->
  exists pre statusText post,
    tr = (pre ++ NResponse true statusText true :: post)%list
    /\ Forall (fun ev => match ev with NChunk _ | NEnd | NReadReject _ _ => True | _ => False end) pre.
Proof.
  intros Hin Hc. induction tr as [|ev tr IH]; [destruct Hin|].
  destruct ev as [ok st hb|name m|t| |name m|]; cbn [run] in Hin.
  - destruct ok; cbn [negb] in Hin.
    + destruct hb; cbn [negb] in Hin.
      * exists [], st, tr. split; [reflexivity | constructor].
      * destruct (on_rejection_only_errors _ _ _ _ Hin) as [m' ->]. now destruct (Hc m').
    + destruct (on_rejection_only_errors _ _ _ _ Hin) as [m' ->]. now destruct (Hc m').
  - destruct (on_rejection_only_errors _ _ _ _ Hin) as [m' ->]. now destruct (Hc m').
  - destruct (IH Hin) as (pre & st & post & -> & Hpre).
    exists (NChunk t :: pre), st, post. split; [reflexivity | now constructor].
  - destruct (IH Hin) as (pre & st & post & -> & Hpre).
    exists (NEnd :: pre), st, post. split; [reflexivity | now constructor].
  - destruct (IH Hin) as (pre & st & post & -> & Hpre).
    exists (NReadReject name m :: pre), st, post. split; [reflexivity | now constructor].
  - destruct (on_rejection_only_errors _ _ _ _ Hin) as [m' ->]. now destruct (Hc m').
Qed.

Lemma searchStream_callbacks_need_ok_response_witness :
  In CDone (run sample_parse all_cbs [NResponse true "OK" true; NEnd]) /\
  exists pre statusText post,
    [NResponse true "OK" true; NEnd] = (pre ++ NResponse true statusText true :: post)%list
    /\ Forall (fun ev => match ev with NChunk _ | NEnd | NReadReject _ _ => True | _ => False end) pre.
Proof.
  split; [left; reflexivity|].
  apply (searchStream_callbacks_need_ok_response sample_parse all_cbs _ CDone);
    [left; reflexivity | discriminate].
Defined.

End SSEExtra.

(* ------------------------------------------------------------------ *)
(** ** The chat page (client/src/components/chat/Chat.tsx) *)

Module ChatPage.
Import SSE.

(** [Message] of ChatMessage.tsx; the fields copied from the metadata
    event hold the JSON values they come from, [None] being [undefined]. *)
Module Msg.
Record Message : Type := {
  id : string;
  role : string;
  content : string;
  sourcePaper : option json;
  searchResults : option json;
  searchMode : option json;
  appliedFilters : option json
}.
End Msg.

(** The object passed to [setMonitoringData]. *)
Module Mon.
Record MonitoringData : Type := {
  originalQuery : option json;
  semanticQuery : option json;
  parsedFilters : option json;
  reformulatedQueries : option json;
  searchMode : option json;
  appliedFilters : option json;
  results : option json;
  timestamps : option json;
  query_type : option json
}.
End Mon.

Module Hist.
Record ChatHistory : Type := { id : string; title : string; createdAt : Z }.
End Hist.

(** The React state of [Chat] that the stream callbacks and the handlers
    touch; [abortController] records whether [abortControllerRef.current]
    holds a controller. *)
Record ChatState : Type := {
  messages : list Msg.Message;
  isLoading : bool;
  monitoringData : option Mon.MonitoringData;
  abortController : bool;
  chatHistory : list Hist.ChatHistory;
  currentChatId : option string
}.

(** [metadata.k] on a value that is not [null]. *)
Definition field (v : json) (k : string) : option json :=
  match js_get v k with Some (Some w) => Some w | _ => None end.

(** [a || d]. *)
Definition or_default (a : option json) (d : json) : json :=
  match a with Some v => if truthy v then v else d | None => d end.

(** [a ?? undefined]. *)
Definition nullish_undefined (a : option json) : option json :=
  match a with Some JNull => None | _ => a end.

(** [.length] of a value, [undefined] for values without one.  Strings
    are measured in characters of the model. *)
Definition js_length (v : json) : option nat :=
  match v with JArr l => Some (length l) | JStr s => Some (String.length s) | _ => None end.

Definition update_message (assistantMessageId : string) (f : Msg.Message -> Msg.Message)
  (msg : Msg.Message) : Msg.Message :=
  if String.eqb (Msg.id msg) assistantMessageId then f msg else msg.

Definition set_messages (st : ChatState) (ms : list Msg.Message) : ChatState :=
  {| messages := ms; isLoading := isLoading st; monitoringData := monitoringData st;
     abortController := abortController st; chatHistory := chatHistory st;
     currentChatId := currentChatId st |}.

(** [setIsLoading(false); abortControllerRef.current = null]. *)
Definition finish (st : ChatState) : ChatState :=
  {| messages := messages st; isLoading := false; monitoringData := monitoringData st;
     abortController := false; chatHistory := chatHistory st;
     currentChatId := currentChatId st |}.

(** [onMetadata]: reading [metadata.original_query] throws on [null]
    (the exception is caught by [searchStream]), otherwise the monitoring
    data is replaced and the assistant message takes the metadata. *)
Definition onMetadata (assistantMessageId : string) (metadata : json) (st : ChatState) : ChatState :=
  match metadata with
  | JNull => st
  | _ =>
      let get := field metadata in
      let md := {| Mon.originalQuery := get "original_query";
                   Mon.semanticQuery := get "semantic_query";
                   Mon.parsedFilters := get "parsed_filters";
                   Mon.reformulatedQueries := Some (or_default (get "reformulated_queries") (JArr []));
                   Mon.searchMode := Some (or_default (get "mode") (JStr "unknown"));
                   Mon.appliedFilters := get "applied_filters";
                   Mon.results := get "results";
                   Mon.timestamps := Some (or_default (get "timestamps") (JObj []));
                   Mon.query_type := get "query_type" |} in
      {| messages :=
           map (update_message assistantMessageId (fun msg =>
                  {| Msg.id := Msg.id msg; Msg.role := Msg.role msg; Msg.content := Msg.content msg;
                     Msg.sourcePaper := nullish_undefined (get "source_paper");
                     Msg.searchResults := get "results";
                     Msg.searchMode := nullish_undefined (get "mode");
                     Msg.appliedFilters := get "applied_filters" |}))
               (messages st);
         isLoading := isLoading st; monitoringData := Some md;
         abortController := abortController st; chatHistory := chatHistory st;
         currentChatId := currentChatId st |}
  end.

Definition with_content (msg : Msg.Message) (c : string) : Msg.Message :=
  {| Msg.id := Msg.id msg; Msg.role := Msg.role msg; Msg.content := c;
     Msg.sourcePaper := Msg.sourcePaper msg; Msg.searchResults := Msg.searchResults msg;
     Msg.searchMode := Msg.searchMode msg; Msg.appliedFilters := Msg.appliedFilters msg |}.

(** [onChunk]: [msg.content + chunk]. *)
Definition onChunk (assistantMessageId : string) (chunk : json) (st : ChatState) : ChatState :=
  set_messages st
    (map (update_message assistantMessageId
            (fun msg => with_content msg (Msg.content msg ++ js_to_string chunk)))
         (messages st)).

(** [msg.searchResults && msg.searchResults.length > 0]. *)
Definition hasResults (msg : Msg.Message) : bool :=
  match Msg.searchResults msg with
  | Some v => truthy v && match js_length v with Some n => Nat.ltb 0 n | None => false end
  | None => false
  end.

Definition fallback_text (msg : Msg.Message) : string :=
  if hasResults msg then
    "Found " ++ match option_map js_length (Msg.searchResults msg) with
                | Some (Some n) => Z_to_string (Z.of_nat n)
                | _ => "undefined"
                end ++ " relevant papers."
  else "No papers found matching your query. Try a different search term.".

(** [onDone]: the fallback text fills an assistant message left empty. *)
Definition onDone (assistantMessageId : string) (st : ChatState) : ChatState :=
  set_messages (finish st)
    (map (fun msg =>
            if String.eqb (Msg.id msg) assistantMessageId && String.eqb (Msg.content msg) ""
            then with_content msg (fallback_text msg) else msg)
         (messages st)).

Definition error_text : string :=
  "Sorry, I couldn't connect to the server. Please try again later.".

(** [onError]. *)
Definition onError (assistantMessageId : string) (st : ChatState) : ChatState :=
  set_messages (finish st)
    (map (update_message assistantMessageId (fun msg => with_content msg error_text))
         (messages st)).

(** The callbacks [handleSend] passes to [searchStream]: all present, none
    of them aborts. *)
Definition chat_callbacks : StreamCallbacks :=
  {| SSE.onMetadata := Some (fun _ => false); SSE.onChunk := Some (fun _ => false);
     SSE.onDone := Some false; SSE.onError := Some (fun _ => false) |}.

(** The effect of one callback invocation on the page state. *)
Definition apply_call (assistantMessageId : string) (st : ChatState) (c : call) : ChatState :=
  match c with
  | CMetadata v => onMetadata assistantMessageId v st
  | CChunk v => onChunk assistantMessageId v st
  | CDone => onDone assistantMessageId st
  | CError _ => onError assistantMessageId st
  end.

(** [title: content.slice(0, 40) + (content.length > 40 ? "..." : "")]. *)
Definition chat_title (content : string) : string :=
  substring 0 40 content ++ (if Nat.ltb 40 (String.length content) then "..." else "").

End ChatPage.

Module ChatExtra.
Import SSE ChatPage.

Lemma concat_empty_cons (a : string) (l : list string) :
  String.concat "" (a :: l) = a ++ String.concat "" l.
Proof. destruct l; [now rewrite str_app_nil_r | reflexivity]. Qed.

Lemma update_message_compose aid f g msg :
  (forall m, Msg.id (g m) = Msg.id m) ->
  update_message aid f (update_message aid g msg) = update_message aid (fun m => f (g m)) msg.
Proof.
  intros Hg. unfold update_message. destruct (String.eqb (Msg.id msg) aid) eqn:E; [|now rewrite E].
  now rewrite Hg, E.
Qed.

Lemma fallback_text_nonempty msg : String.eqb (fallback_text msg) "" = false.
Proof. unfold fallback_text. destruct (hasResults msg); reflexivity. Qed.

Lemma done_fill_idem aid msg :
  let g := fun msg : Msg.Message =>
    if String.eqb (Msg.id msg) aid && String.eqb (Msg.content msg) ""
    then with_content msg (fallback_text msg) else msg in
  g (g msg) = g msg.
Proof.
  cbv beta zeta. destruct (String.eqb (Msg.id msg) aid && String.eqb (Msg.content msg) "") eqn:E.
  - cbn [with_content Msg.id Msg.content]. rewrite fallback_text_nonempty, andb_false_r. reflexivity.
  - now rewrite E.
Qed.

Lemma done_fill_after_error aid msg :
  let g := fun msg : Msg.Message =>
    if String.eqb (Msg.id msg) aid && String.eqb (Msg.content msg) ""
    then with_content msg (fallback_text msg) else msg in
  g (update_message aid (fun m => with_content m error_text) msg)
  = update_message aid (fun m => with_content m error_text) msg.
Proof.
  cbv beta zeta. unfold update_message. destruct (String.eqb (Msg.id msg) aid) eqn:E.
  - cbn [with_content Msg.id Msg.content]. rewrite E. reflexivity.
  - now rewrite E.
Qed.

Lemma substring_short (n : nat) (s : string) : (String.length s <= n)%nat -> substring 0 n s = s.
Proof.
  revert n. induction s as [|c s IH]; intros n H; destruct n as [|n]; simpl in *;
    try reflexivity; try lia.
  rewrite IH by lia. reflexivity.
Qed.

Lemma substring_length (n : nat) (s : string) : (String.length (substring 0 n s) <= n)%nat.
Proof.
  revert n. induction s as [|c s IH]; intros n; destruct n as [|n]; simpl; try lia.
  specialize (IH n). lia.
Qed.

Lemma string_length_app (a b : string) : String.length (a ++ b) = (String.length a + String.length b)%nat.
Proof. induction a as [|c a IH]; simpl; [reflexivity | now rewrite IH]. Qed.

Lemma chunks_fold aid vs st :
  fold_left (apply_call aid) (map CChunk vs) st
  = set_messages st
      (map (update_message aid (fun msg =>
              with_content msg (Msg.content msg ++ String.concat "" (map js_to_string vs))))
           (messages st)).
Proof.
  revert st. induction vs as [|v vs IH]; intros st.
  - destruct st as [ms il md ac ch cc]. unfold set_messages. cbn [fold_left map messages].
    f_equal. cbn [String.concat].
    rewrite <- (map_id ms) at 1. apply map_ext. intros [i r c sp sr sm af].
    unfold update_message, with_content. cbn [Msg.id Msg.content].
    rewrite str_app_nil_r. destruct (String.eqb i aid); reflexivity.
  - cbn [map fold_left]. rewrite IH. unfold apply_call, onChunk, set_messages. cbn [messages].
    f_equal; try reflexivity. rewrite map_map. apply map_ext. intros msg.
    rewrite update_message_compose by reflexivity. unfold update_message.
    destruct (String.eqb (Msg.id msg) aid); [|reflexivity].
    unfold with_content. cbn [Msg.content Msg.id Msg.role Msg.sourcePaper Msg.searchResults
                               Msg.searchMode Msg.appliedFilters].
    cbn [map]. rewrite concat_empty_cons, str_app_assoc. reflexivity.
Qed.

(** ** X5 Each [onChunk] appends [String(chunk)] to the assistant
    message: a sequence of chunk callbacks appends the concatenation of
    the chunks, in order, and leaves every other message and the rest of
    the page state unchanged. *)
Theorem chat_chunks_append aid vs st :
  fold_left (apply_call aid) (map CChunk vs) st
  = set_messages st
      (map (update_message aid (fun msg =>
              with_content msg (Msg.content msg ++ String.concat "" (map js_to_string vs))))
           (messages st)).
Proof. apply chunks_fold. Qed.

(** ** X6 [onDone] applied to the state that [onDone] or [onError] has
    just produced, with no other update in between, changes nothing:
    [onDone] only fills an assistant message that is still empty, and
    both callbacks leave it non-empty.  (When another update comes in
    between, see X19.) *)
Theorem chat_trailing_done aid st c :
  (c = CDone \/ exists m, c = CError m) ->
  apply_call aid (apply_call aid st c) CDone = apply_call aid st c.
Proof.
  intros [->|[m ->]]; cbn [apply_call]; unfold onDone, onError, set_messages, finish;
    cbn [messages isLoading monitoringData abortController chatHistory currentChatId];
    f_equal; rewrite map_map; apply map_ext; intros msg.
  - apply done_fill_idem.
  - apply done_fill_after_error.
Qed.

Lemma chat_trailing_done_witness :
  let st := {| messages := [ {| Msg.id := "1"; Msg.role := "user"; Msg.content := "parsing";
                                Msg.sourcePaper := None; Msg.searchResults := None;
                                Msg.searchMode := None; Msg.appliedFilters := None |};
                             {| Msg.id := "2"; Msg.role := "assistant"; Msg.content := "";
                                Msg.sourcePaper := None; Msg.searchResults := Some (JArr [JNull]);
                                Msg.searchMode := None; Msg.appliedFilters := None |} ];
               isLoading := true; monitoringData := None; abortController := true;
               chatHistory := []; currentChatId := None |} in
  (CDone = CDone \/ exists m, CDone = CError m)
  /\ apply_call "2" (apply_call "2" st CDone) CDone = apply_call "2" st CDone.
Proof.
  intros st. split; [left; reflexivity|].
  apply (chat_trailing_done "2" st CDone). left; reflexivity.
Defined.

(** ** X7 The chat title derived from the first message is the message
    itself when it has at most 40 characters, and never longer than 43
    characters (40 characters followed by an ellipsis). *)
Theorem chat_title_bounded content :
  (String.length (chat_title content) <= 43)%nat
  /\ ((String.length content <= 40)%nat -> chat_title content = content).
Proof.
  unfold chat_title. split.
  - rewrite string_length_app. pose proof (substring_length 40 content).
    destruct (Nat.ltb 40 (String.length content)); simpl String.length; lia.
  - intros H. rewrite substring_short by exact H.
    destruct (Nat.ltb 40 (String.length content)) eqn:E; [apply Nat.ltb_lt in E; lia|].
    apply str_app_nil_r.
Qed.

End ChatExtra.

(* ------------------------------------------------------------------ *)
(** ** The monitoring panel (components/monitoring/MonitoringPanel.tsx) *)

Module Monitoring.
Open Scope Q_scope.

(** [expandedSections], a [Set<string>], as its elements in insertion
    order. *)
Definition set_has (s : string) (set : list string) : bool := existsb (String.eqb s) set.
Definition set_delete (s : string) (set : list string) : list string :=
  filter (fun x => negb (String.eqb s x)) set.
Definition set_add (s : string) (set : list string) : list string :=
  if set_has s set then set else (set ++ [s])%list.

(** [toggleSection(section)] on a copy [new Set(expandedSections)]. *)
Definition toggleSection (section : string) (expandedSections : list string) : list string :=
  let newExpanded := expandedSections in
  if set_has section newExpanded then set_delete section newExpanded
  else set_add section newExpanded.

(** The timestamps of [MonitoringData], in milliseconds; [None] is
    [undefined].  [NaN] is not modelled. *)
Record Timestamps : Type := {
  start : option Q;
  filterParsed : option Q;
  queriesReformed : option Q;
  searchCompleted : option Q;
  responseGenerated : option Q
}.

Definition num_truthy (t : option Q) : bool :=
  match t with Some x => negb (Qeq_bool x 0) | None => false end.

(** [a || b] on optional numbers. *)
Definition num_or (a b : option Q) : option Q := if num_truthy a then a else b.

(** [x.toFixed(0)] for [|x| < 10^21]: the sign, then the integer nearest
    to [|x|], the larger one on a tie. *)
Definition toFixed0 (x : Q) : string :=
  (if Qle_bool 0 x then "" else "-") ++ Z_to_string (Qfloor (Qabs x + (1 # 2))).

(** [getDuration(start, end)]. *)
Definition getDuration (s e : option Q) : option string :=
  if negb (num_truthy s) || negb (num_truthy e) then None
  else match s, e with
       | Some a, Some b => Some (toFixed0 (b - a) ++ "ms")
       | _, _ => None
       end.

(** The stage rows of the Timeline card after [Start]: label, the
    timestamp the duration is measured from, the stage's timestamp. *)
Definition timeline_stages (ts : Timestamps) : list (string * option Q * option Q) :=
  ((if num_truthy (filterParsed ts) then [("Filters", start ts, filterParsed ts)] else [])
   ++ (if num_truthy (queriesReformed ts)
       then [("Reformulated", num_or (filterParsed ts) (start ts), queriesReformed ts)] else [])
   ++ (if num_truthy (searchCompleted ts)
       then [("Search", num_or (num_or (queriesReformed ts) (filterParsed ts)) (start ts),
              searchCompleted ts)] else []))%list.

(** [{value}] of a [string | null]: [null] renders nothing. *)
Definition render_opt (s : option string) : string := match s with Some t => t | None => "" end.

(** The text of those rows and of the [Total] row. *)
Definition timeline_rows (ts : Timestamps) : list (string * string) :=
  (map (fun '(l, b, e) => (l, "+" ++ render_opt (getDuration b e))%string) (timeline_stages ts)
   ++ (if num_truthy (responseGenerated ts)
       then [("Total", render_opt (getDuration (start ts) (responseGenerated ts)))] else []))%list.

End Monitoring.

(** ** Score display of [InlineCitation] *)

Module CitationScore.
Open Scope Q_scope.

Definition getScoreColor (score : Q) : string :=
  if Qle_bool (7 # 10) score then "text-green-600 dark:text-green-400"
  else if Qle_bool (1 # 2) score then "text-yellow-600 dark:text-yellow-400"
  else "text-orange-600 dark:text-orange-400".

(** [Math.round(score * 100)]: the nearest integer, the larger one on a
    tie. *)
Definition scorePercent (score : Q) : Z := Qfloor (score * 100 + (1 # 2)).

End CitationScore.

Module MonitoringExtra.
Import Monitoring.
Open Scope Q_scope.

Lemma existsb_filter_other (x s : string) (l : list string) :
  String.eqb x s = false ->
  existsb (String.eqb x) (filter (fun y => negb (String.eqb s y)) l) = existsb (String.eqb x) l.
Proof.
  intros Hxs. induction l as [|y l IH]; [reflexivity|]. cbn [filter existsb].
  destruct (String.eqb s y) eqn:E; cbn [negb existsb].
  - apply String.eqb_eq in E. subst y. now rewrite Hxs, IH.
  - now rewrite IH.
Qed.

Lemma existsb_filter_self (s : string) (l : list string) :
  existsb (String.eqb s) (filter (fun y => negb (String.eqb s y)) l) = false.
Proof.
  induction l as [|y l IH]; [reflexivity|]. cbn [filter].
  destruct (String.eqb s y) eqn:E; cbn [negb existsb]; [exact IH|]. now rewrite E, IH.
Qed.

Lemma toggle_has (x s : string) (set : list string) :
  set_has x (toggleSection s set) = if String.eqb x s then negb (set_has s set) else set_has x set.
Proof.
  unfold toggleSection, set_delete, set_add, set_has. cbv zeta.
  destruct (String.eqb x s) eqn:Exs.
  - apply String.eqb_eq in Exs. subst x.
    destruct (existsb (String.eqb s) set) eqn:E.
    + apply existsb_filter_self.
    + rewrite existsb_app, E. cbn. now rewrite String.eqb_refl.
  - destruct (existsb (String.eqb s) set) eqn:E.
    + now apply existsb_filter_other.
    + rewrite existsb_app. cbn. now rewrite Exs, orb_false_r.
Qed.

(** ** X8 [toggleSection] flips whether the given section is expanded
    and leaves every other section as it was; toggling the same section
    twice restores which sections are expanded. *)
Theorem toggleSection_flips (s : string) (set : list string) :
  (forall x, set_has x (toggleSection s set)
             = if String.eqb x s then negb (set_has s set) else set_has x set)
  /\ (forall x, set_has x (toggleSection s (toggleSection s set)) = set_has x set).
Proof.
  split; [intros x; apply toggle_has|]. intros x. rewrite !toggle_has.
  destruct (String.eqb x s) eqn:E; [|reflexivity].
  apply String.eqb_eq in E. subst x. rewrite String.eqb_refl. apply negb_involutive.
Qed.

Definition stage_span (r : string * option Q * option Q) : Q :=
  match r with (_, Some b, Some e) => e - b | _ => 0 end.

(** ** X9 The stage durations of the Timeline card add up: once [start]
    and [searchCompleted] are set, every stage row shown (Filters,
    Reformulated, Search) has a duration, measured from the latest earlier
    stage that is set, and these durations sum to [searchCompleted -
    start] whichever intermediate timestamps are missing. *)
Theorem timeline_durations_telescope (ts : Timestamps) (s0 s1 : Q) :
  start ts = Some s0 -> ~ s0 == 0 -> searchCompleted ts = Some s1 -> ~ s1 == 0 ->
  Forall (fun r => exists b e, snd r = Some e /\ snd (fst r) = Some b
                     /\ getDuration (snd (fst r)) (snd r) = Some (toFixed0 (e - b) ++ "ms")%string)
         (timeline_stages ts)
  /\ fold_right Qplus 0 (map stage_span (timeline_stages ts)) == s1 - s0.
Proof.
  intros Hs H0 Hc H1.
  assert (E0 : Qeq_bool s0 0 = false) by (destruct (Qeq_bool s0 0) eqn:E; [now apply Qeq_bool_eq in E|reflexivity]).
  assert (E1 : Qeq_bool s1 0 = false) by (destruct (Qeq_bool s1 0) eqn:E; [now apply Qeq_bool_eq in E|reflexivity]).
  destruct ts as [st fp qr sc rg]; cbn [start searchCompleted] in Hs, Hc; subst st sc.
  unfold timeline_stages, num_or; cbn [start filterParsed queriesReformed searchCompleted].
  destruct fp as [f|]; [destruct (Qeq_bool f 0) eqn:Ef|];
  (destruct qr as [q|]; [destruct (Qeq_bool q 0) eqn:Eq|]);
  do 2 (unfold num_truthy; rewrite ?Ef, ?Eq, ?E0, ?E1; cbn [negb app map fold_right stage_span]);
  (split; [repeat (apply Forall_cons;
                   [do 2 eexists; (split; [reflexivity|]); (split; [reflexivity|]);
                    unfold getDuration; cbn [num_truthy fst snd]; rewrite ?Ef, ?Eq, ?E0, ?E1; reflexivity|]);
           apply Forall_nil
          | ring]).
Qed.

Lemma timeline_durations_telescope_witness :
  let ts := {| start := Some 1000; filterParsed := None; queriesReformed := Some 1250;
               searchCompleted := Some 1600; responseGenerated := None |} in
  (start ts = Some 1000 /\ ~ 1000 == 0 /\ searchCompleted ts = Some 1600 /\ ~ 1600 == 0)
  /\ (Forall (fun r => exists b e, snd r = Some e /\ snd (fst r) = Some b
                     /\ getDuration (snd (fst r)) (snd r) = Some (toFixed0 (e - b) ++ "ms")%string)
         (timeline_stages ts)
     /\ fold_right Qplus 0 (map stage_span (timeline_stages ts)) == 1600 - 1000).
Proof.
  intros ts. split.
  - split; [reflexivity|]. split; [vm_compute; intros H; discriminate H|].
    split; [reflexivity|]. vm_compute; intros H; discriminate H.
  - apply (timeline_durations_telescope ts 1000 1600);
      [reflexivity | vm_compute; intros H; discriminate H
      | reflexivity | vm_compute; intros H; discriminate H].
Defined.

End MonitoringExtra.

Module CitationScoreExtra.
Import CitationScore.
Open Scope Q_scope.

Definition color_rank (c : string) : nat :=
  if String.eqb c "text-green-600 dark:text-green-400" then 2
  else if String.eqb c "text-yellow-600 dark:text-yellow-400" then 1 else 0.

(** ** X10 The score badge of a citation popover never ranks a higher
    score below a lower one: both the colour class (orange below 0.5,
    yellow below 0.7, green from 0.7) and the rounded percentage are
    monotone in the score, and a score in [0, 1] shows a percentage
    between 0 and 100. *)
Theorem score_badge_monotone (s1 s2 : Q) :
  s1 <= s2 ->
  (color_rank (getScoreColor s1) <= color_rank (getScoreColor s2))%nat
  /\ (scorePercent s1 <= scorePercent s2)%Z
  /\ (0 <= s1 -> s2 <= 1 -> (0 <= scorePercent s1)%Z /\ (scorePercent s2 <= 100)%Z).
Proof.
  intros H. split; [|split].
  - unfold getScoreColor.
    destruct (Qle_bool (7 # 10) s1) eqn:A1.
    + apply Qle_bool_iff in A1. assert (A2 : Qle_bool (7 # 10) s2 = true)
        by (apply Qle_bool_iff; eapply Qle_trans; eassumption). rewrite A2. reflexivity.
    + destruct (Qle_bool (1 # 2) s1) eqn:B1.
      * apply Qle_bool_iff in B1. assert (B2 : Qle_bool (1 # 2) s2 = true)
          by (apply Qle_bool_iff; eapply Qle_trans; eassumption).
        rewrite B2. destruct (Qle_bool (7 # 10) s2); cbv; lia.
      * destruct (Qle_bool (7 # 10) s2); [|destruct (Qle_bool (1 # 2) s2)]; cbv; lia.
  - unfold scorePercent. apply Qfloor_resp_le.
    apply Qplus_le_compat; [|apply Qle_refl]. apply Qmult_le_compat_r; [exact H|]. discriminate.
  - intros L U. unfold scorePercent. split.
    + change 0%Z with (Qfloor (0 * 100 + (1 # 2))). apply Qfloor_resp_le.
      apply Qplus_le_compat; [|apply Qle_refl]. apply Qmult_le_compat_r; [exact L|]. discriminate.
    + change 100%Z with (Qfloor (1 * 100 + (1 # 2))). apply Qfloor_resp_le.
      apply Qplus_le_compat; [|apply Qle_refl]. apply Qmult_le_compat_r; [exact U|]. discriminate.
Qed.

Lemma score_badge_monotone_witness :
  (3 # 5) <= (4 # 5)
  /\ ((color_rank (getScoreColor (3 # 5)) <= color_rank (getScoreColor (4 # 5)))%nat
      /\ (scorePercent (3 # 5) <= scorePercent (4 # 5))%Z
      /\ (0 <= (3 # 5) -> (4 # 5) <= 1
          -> (0 <= scorePercent (3 # 5))%Z /\ (scorePercent (4 # 5) <= 100)%Z)).
Proof.
  split; [vm_compute; intros H; discriminate H|].
  apply (score_badge_monotone (3 # 5) (4 # 5)). vm_compute; intros H; discriminate H.
Defined.

End CitationScoreExtra.

(* ------------------------------------------------------------------ *)
(** ** [getPaper] (client/src/lib/api.ts) *)

Module PaperApi.
Open Scope nat_scope.

(** [encodeURIComponent] on the UTF-8 bytes of its argument: the
    characters [A-Z a-z 0-9 - _ . ! ~ * ' ( )] are kept, every other byte
    becomes [%XX] with upper-case hexadecimal digits.  (A lone surrogate,
    on which [encodeURIComponent] throws, has no UTF-8 bytes and is not
    modelled.) *)
Definition is_unreserved (c : ascii) : bool :=
  let n := nat_of_ascii c in
  (Nat.leb 65 n && Nat.leb n 90) || (Nat.leb 97 n && Nat.leb n 122)
  || (Nat.leb 48 n && Nat.leb n 57)
  || existsb (Nat.eqb n) [45; 95; 46; 33; 126; 42; 39; 40; 41].

Definition hex_digit (d : nat) : ascii :=
  ascii_of_nat (if Nat.ltb d 10 then 48 + d else 55 + d).

Fixpoint encodeURIComponent (s : string) : string :=
  match s with
  | EmptyString => EmptyString
  | String c r =>
      if is_unreserved c then String c (encodeURIComponent r)
      else let n := nat_of_ascii c in
           String "%" (String (hex_digit (n / 16)) (String (hex_digit (n mod 16))
             (encodeURIComponent r)))
  end.

(** The URL [getPaper] fetches, [API_BASE_URL] being [base]. *)
Definition getPaper_url (base paperId : string) : string :=
  base ++ "/api/paper/" ++ encodeURIComponent paperId.

(** What [getPaper] does with the response: [null] on 404, an error on
    any other status that is not ok, the parsed body otherwise. *)
Inductive paper_outcome : Type :=
| PaperNull
| PaperBody (body : json)
| PaperThrow (message : string).

Definition getPaper_response (status : Z) (ok : bool) (statusText : string) (body : json)
  : paper_outcome :=
  if Z.eqb status 404 then PaperNull
  else if negb ok then PaperThrow ("Failed to fetch paper: " ++ statusText)
  else PaperBody body.

End PaperApi.

Module PaperApiExtra.
Import PaperApi.
Open Scope nat_scope.

(** Reading the [%XX] escapes back. *)
Definition hex_value (h : ascii) : nat :=
  let n := nat_of_ascii h in if Nat.leb 48 n && Nat.leb n 57 then n - 48 else n - 55.

Fixpoint percent_decode (s : string) : string :=
  match s with
  | EmptyString => EmptyString
  | String c r =>
      if Ascii.eqb c "%" then
        match r with
        | String h (String l r') => String (ascii_of_nat (16 * hex_value h + hex_value l)) (percent_decode r')
        | _ => String c (percent_decode r)
        end
      else String c (percent_decode r)
  end.

Lemma escape_roundtrip (c : ascii) :
  ascii_of_nat (16 * hex_value (hex_digit (nat_of_ascii c / 16))
                + hex_value (hex_digit (nat_of_ascii c mod 16))) = c.
Proof. destruct c as [[] [] [] [] [] [] [] []]; vm_compute; reflexivity. Qed.

Lemma unreserved_not_percent (c : ascii) : is_unreserved c = true -> Ascii.eqb c "%" = false.
Proof.
  intros H. destruct (Ascii.eqb_spec c "%"); [subst c; discriminate H | reflexivity].
Qed.

Lemma decode_encode (s : string) : percent_decode (encodeURIComponent s) = s.
Proof.
  induction s as [|c r IH]; [reflexivity|]. cbn [encodeURIComponent].
  destruct (is_unreserved c) eqn:U.
  - cbn [percent_decode]. rewrite unreserved_not_percent by exact U. now rewrite IH.
  - cbv zeta. cbn [percent_decode]. rewrite Ascii.eqb_refl, IH, escape_roundtrip. reflexivity.
Qed.

Lemma append_cancel_l (p a b : string) : (p ++ a)%string = (p ++ b)%string -> a = b.
Proof. induction p as [|c p IH]; cbn; intros H; [exact H|]. injection H. exact IH. Qed.

Lemma hex_digit_unreserved (d : nat) : d < 16 -> is_unreserved (hex_digit d) = true.
Proof.
  intros H. do 16 (destruct d as [|d]; [reflexivity|]). lia.
Qed.

Lemma encode_chars (s : string) :
  Forall (fun c => is_unreserved c = true \/ c = "%"%char) (list_ascii_of_string (encodeURIComponent s)).
Proof.
  induction s as [|c r IH]; cbn [encodeURIComponent]; [constructor|].
  destruct (is_unreserved c) eqn:U; cbn [list_ascii_of_string]; [now constructor; auto|].
  constructor; [now right|]. constructor; [left; apply hex_digit_unreserved, Nat.Div0.div_lt_upper_bound;
    pose proof (nat_ascii_bounded c); lia|].
  constructor; [left; apply hex_digit_unreserved, Nat.mod_upper_bound; lia|]. exact IH.
Qed.

(** ** X11 [getPaper] requests one path segment per paper id, and a
    different one for each id: the encoded id holds no [/], [?] or [#]
    (only unreserved characters and [%] escapes), and two ids give the
    same URL only if they are equal. *)
Theorem getPaper_url_one_segment (base a b : string) :
  (getPaper_url base a = getPaper_url base b -> a = b)
  /\ Forall (fun c => is_unreserved c = true \/ c = "%"%char) (list_ascii_of_string (encodeURIComponent a))
  /\ ~ In "/"%char (list_ascii_of_string (encodeURIComponent a))
  /\ ~ In "?"%char (list_ascii_of_string (encodeURIComponent a))
  /\ ~ In "#"%char (list_ascii_of_string (encodeURIComponent a)).
Proof.
  pose proof (encode_chars a) as F. rewrite Forall_forall in F.
  split; [|split; [now apply Forall_forall|]].
  - unfold getPaper_url. intros H. apply append_cancel_l, append_cancel_l in H.
    rewrite <- (decode_encode a), <- (decode_encode b), H. reflexivity.
  - split; [|split]; intros I; destruct (F _ I) as [U|U]; discriminate U.
Qed.

End PaperApiExtra.

Module CitationExtra.
Import Citations.
Open Scope nat_scope.

(** The [parts] array [processCitations] builds for a string child. *)
Definition citation_parts (results : list SearchResult) (s : string) : list part :=
  scan (S (String.length s)) results "" s.

Fixpoint no_bracket (s : string) : bool :=
  match s with
  | EmptyString => true
  | String c s' => negb (Ascii.eqb c "[") && no_bracket s'
  end.

Fixpoint all_cite_chars (s : string) : bool :=
  match s with
  | EmptyString => true
  | String c s' => is_cite_char c && all_cite_chars s'
  end.

(** The text [\d+(?:[,\s-]+\d+)*] matches exactly. *)
Definition cite_group (g : string) : bool := all_cite_chars g && cite_group_ok g.

Definition cite_parts (results : list SearchResult) (g : string) : list part :=
  map (fun num => PCite num (js_index results (num - 1))) (parseCitationNumbers g).

Definition text_part (x : string) : list part := if String.eqb x "" then [] else [PText x].

Lemma str_length_app (a b : string) : String.length (a ++ b) = String.length a + String.length b.
Proof. induction a as [|c a IH]; simpl; [reflexivity | now rewrite IH]. Qed.

Lemma match_at_not_bracket (c : ascii) (s : string) :
  Ascii.eqb c "[" = false -> match_at (String c s) = None.
Proof.
  destruct c as [[] [] [] [] [] [] [] []]; intros H; try reflexivity; vm_compute in H; discriminate H.
Qed.

Lemma span_cite_suffix (s g r : string) :
  span_cite s = (g, r) -> String.length r <= String.length s.
Proof.
  revert g r. induction s as [|c s IH]; intros g r H; cbn [span_cite] in H.
  - injection H as <- <-. reflexivity.
  - destruct (is_cite_char c).
    + destruct (span_cite s) as [a b] eqn:E. injection H as <- <-.
      specialize (IH _ _ eq_refl). simpl. lia.
    + injection H as <- <-. reflexivity.
Qed.

Lemma match_at_some (s g rest : string) :
  match_at s = Some (g, rest) ->
  exists t, s = String "[" t /\ span_cite t = (g, String "]" rest).
Proof.
  intros H. destruct s as [|c t]; [discriminate H|].
  destruct c as [[] [] [] [] [] [] [] []]; cbn in H; try discriminate H.
  destruct (span_cite t) as [g0 r] eqn:E.
  destruct r as [|c' r']; [discriminate H|].
  destruct c' as [[] [] [] [] [] [] [] []]; try discriminate H.
  destruct (cite_group_ok g0); [|discriminate H]. injection H as <- <-.
  exists t. split; [reflexivity | exact E].
Qed.

Lemma match_at_length (s g rest : string) :
  match_at s = Some (g, rest) -> String.length rest < String.length s.
Proof.
  intros H. apply match_at_some in H as (t & -> & E). apply span_cite_suffix in E.
  simpl in *. lia.
Qed.

Lemma scan_fuel (f1 f2 : nat) results (p s : string) :
  String.length s < f1 -> String.length s < f2 -> scan f1 results p s = scan f2 results p s.
Proof.
  revert f2 p s. induction f1 as [|f1 IH]; intros f2 p s H1 H2; [lia|].
  destruct f2 as [|f2]; [lia|]. destruct s as [|c s']; cbn [scan]; [reflexivity|].
  destruct (match_at (String c s')) as [[g rest]|] eqn:M.
  - apply match_at_length in M. simpl in *. f_equal. f_equal. apply IH; lia.
  - simpl in *. apply IH; lia.
Qed.

Lemma scan_plain (x : string) results : forall (p t : string) (f : nat),
  no_bracket x = true -> String.length (x ++ t) < f ->
  scan f results p (x ++ t) = scan (f - String.length x) results (p ++ x) t.
Proof.
  induction x as [|c x IH]; intros p t f Hx Hf.
  - rewrite str_app_nil_r. cbn [String.length]. f_equal. lia.
  - cbn [no_bracket] in Hx. apply andb_true_iff in Hx as [Hc Hx]. apply negb_true_iff in Hc.
    destruct f as [|f]; [simpl in Hf; lia|].
    cbn [String.append scan]. rewrite match_at_not_bracket by exact Hc.
    rewrite IH by (exact Hx || (simpl in Hf; lia)).
    rewrite str_app_assoc. reflexivity.
Qed.

Lemma span_cite_group (g r : string) :
  all_cite_chars g = true -> span_cite (g ++ String "]" r) = (g, String "]" r).
Proof.
  induction g as [|c g IH]; intros H; [reflexivity|].
  cbn [all_cite_chars] in H. apply andb_true_iff in H as [Hc Hg].
  cbn [String.append span_cite]. rewrite Hc, IH by exact Hg. reflexivity.
Qed.

Lemma citation_parts_compose results (x g y : string) :
  no_bracket x = true -> cite_group g = true ->
  citation_parts results (x ++ "[" ++ g ++ "]" ++ y)
  = (text_part x ++ cite_parts results g ++ citation_parts results y)%list.
Proof.
  intros Hx Hg. unfold citation_parts at 1.
  rewrite scan_plain by (exact Hx || lia).
  rewrite str_length_app. replace (S (String.length x + String.length ("[" ++ g ++ "]" ++ y)) - String.length x)
    with (S (String.length ("[" ++ g ++ "]" ++ y))) by lia.
  set (t := ("[" ++ g ++ "]" ++ y)%string).
  change ("" ++ x)%string with x.
  change t with (String "[" (g ++ String "]" y)). cbn [scan].
  unfold match_at. unfold cite_group in Hg. apply andb_true_iff in Hg as [Hc Hok].
  rewrite span_cite_group by exact Hc. rewrite Hok.
  unfold text_part, cite_parts, citation_parts. f_equal. f_equal.
  apply scan_fuel; [|lia]; unfold t; cbn [String.length String.append]; rewrite str_length_app; cbn [String.length]; lia.
Qed.

Lemma scan_no_bracket results (x : string) : forall (p : string) (f : nat),
  no_bracket x = true -> String.length x < f ->
  scan f results p x = if String.eqb (p ++ x) "" then [] else [PText (p ++ x)].
Proof.
  induction x as [|c x IH]; intros p f Hx Hf; (destruct f as [|f]; [simpl in Hf; lia|]).
  - cbn [scan]. now rewrite str_app_nil_r.
  - cbn [no_bracket] in Hx. apply andb_true_iff in Hx as [Hc Hx]. apply negb_true_iff in Hc.
    cbn [scan]. rewrite match_at_not_bracket by exact Hc.
    rewrite IH by (exact Hx || (simpl in Hf; lia)). now rewrite str_app_assoc.
Qed.

(** ** X12 [processCitations] leaves a string without [\[] as it is: the
    empty string is returned unchanged and any other such string becomes a
    fragment holding that one text. *)
Theorem processCitations_plain_text results (s : string) :
  no_bracket s = true ->
  processCitations (RString s) results
  = if String.eqb s "" then OString "" else OFragment [PText s].
Proof.
  intros Hs. cbn [processCitations]. rewrite scan_no_bracket by (exact Hs || lia).
  change ("" ++ s)%string with s.
  destruct (String.eqb s "") eqn:E; [|reflexivity]. apply String.eqb_eq in E. now subst s.
Qed.

Lemma processCitations_plain_text_witness :
  no_bracket "BERT (Devlin et al.) is cited as 1." = true
  /\ processCitations (RString "BERT (Devlin et al.) is cited as 1.") []
     = if String.eqb "BERT (Devlin et al.) is cited as 1." "" then OString ""
       else OFragment [PText "BERT (Devlin et al.) is cited as 1."].
Proof.
  split; [reflexivity|]. apply processCitations_plain_text. reflexivity.
Defined.

(** ** X13 Citation markers are processed one after another: for a text
    [x] without [\[] followed by a marker [\[g\]] whose group [g] matches
    the citation pattern, the parts of [x ++ "[" ++ g ++ "]" ++ y] are the
    text [x] (when non-empty), one citation per number [g] parses to, and
    then the parts of [y]. *)
Theorem citation_parts_marker results (x g y : string) :
  no_bracket x = true -> cite_group g = true ->
  citation_parts results (x ++ "[" ++ g ++ "]" ++ y)
  = (text_part x ++ cite_parts results g ++ citation_parts results y)%list.
Proof. apply citation_parts_compose. Qed.

Lemma citation_parts_marker_witness :
  no_bracket "see " = true /\ cite_group "1, 3-4" = true
  /\ citation_parts [] ("see " ++ "[" ++ "1, 3-4" ++ "]" ++ " and [2]")
     = (text_part "see " ++ cite_parts [] "1, 3-4" ++ citation_parts [] " and [2]")%list.
Proof.
  split; [reflexivity|]. split; [reflexivity|].
  apply citation_parts_marker; reflexivity.
Defined.

(** ** X14 A marker whose group parses to no number, such as [\[3-1\]]
    (a range running backwards), renders no citation: after a non-empty
    text without [\[] it vanishes, leaving that text alone, while a
    message that is only that marker is returned unchanged, brackets
    included. *)
Theorem processCitations_empty_group results (x g : string) :
  no_bracket x = true -> cite_group g = true -> parseCitationNumbers g = [] ->
  processCitations (RString (x ++ "[" ++ g ++ "]")) results
  = if String.eqb x "" then OString ("[" ++ g ++ "]") else OFragment [PText x].
Proof.
  intros Hx Hg Hp.
  pose proof (citation_parts_compose results x g "" Hx Hg) as E.
  rewrite str_app_nil_r in E. unfold citation_parts in E. cbn [processCitations].
  rewrite E. unfold cite_parts, text_part. rewrite Hp. cbn [map app scan].
  destruct (String.eqb x "") eqn:Ex; [|reflexivity].
  apply String.eqb_eq in Ex. now subst x.
Qed.

Lemma processCitations_empty_group_witness :
  no_bracket "Related work " = true /\ cite_group "3-1" = true /\ parseCitationNumbers "3-1" = []
  /\ processCitations (RString ("Related work " ++ "[" ++ "3-1" ++ "]")) []
     = if String.eqb "Related work " "" then OString ("[" ++ "3-1" ++ "]")
       else OFragment [PText "Related work "].
Proof.
  split; [reflexivity|]. split; [reflexivity|]. split; [reflexivity|].
  apply processCitations_empty_group; reflexivity.
Defined.

End CitationExtra.

Module FilterExtra.
Import Filters.

Lemma format_none_parts (f : SearchFilters) :
  formatAppliedFilters (Some f) = None
  <-> (year_parts f ++ authors_parts f ++ awards_parts f ++ language_parts f ++ bibkey_parts f)%list = [].
Proof.
  unfold formatAppliedFilters. cbv zeta.
  destruct (year_parts f ++ authors_parts f ++ awards_parts f ++ language_parts f ++ bibkey_parts f)%list;
    split; intros H; solve [reflexivity | discriminate H].
Qed.

Lemma year_parts_nil (f : SearchFilters) :
  year_parts f = []
  <-> (forall y, year f = Some y ->
        truthy_num (exact y) = false /\ truthy_num (min_year y) = false
        /\ truthy_num (max_year y) = false).
Proof.
  unfold year_parts. destruct (year f) as [y|].
  - destruct (truthy_num (exact y)) eqn:E1.
    { split; [discriminate | intros H; destruct (H y eq_refl) as [H1 _]; congruence]. }
    destruct (truthy_num (min_year y)) eqn:E2, (truthy_num (max_year y)) eqn:E3; cbn [orb];
      try (split; [discriminate | intros H; destruct (H y eq_refl) as (? & ? & ?); congruence]).
    split; [intros _ y' Hy'; injection Hy' as <-; auto | reflexivity].
  - split; [intros _ y' Hy'; discriminate Hy' | reflexivity].
Qed.

Lemma authors_parts_nil (f : SearchFilters) :
  authors_parts f = [] <-> (forall l, authors f = Some l -> l = []).
Proof.
  unfold authors_parts. destruct (authors f) as [[|a l]|].
  - split; [intros _ l' H; now injection H as <- | reflexivity].
  - split; [discriminate | intros H; discriminate (H _ eq_refl)].
  - split; [intros _ l' H; discriminate H | reflexivity].
Qed.

Lemma awards_parts_nil (f : SearchFilters) : awards_parts f = [] <-> has_awards f <> Some true.
Proof.
  unfold awards_parts. destruct (has_awards f) as [[]|];
    split; intros H; solve [discriminate H | congruence | reflexivity | now contradiction H].
Qed.

Lemma truthy_parts_nil (s : option string) (label : string) :
  (if truthy_str s then [label ++ match s with Some l => l | None => "" end] else []) = []
  <-> truthy_str s = false.
Proof. destruct (truthy_str s); split; intros H; solve [discriminate H | reflexivity]. Qed.

(** ** X15 The chat's filter indicator is hidden ([formatAppliedFilters]
    returns [null] for a filters object) exactly when no filter in it is
    set: no truthy exact year, minimum or maximum year, no non-empty
    author list, [has_awards] not [true], and an empty or missing language
    and bibkey. *)
Theorem formatAppliedFilters_null_iff (f : SearchFilters) :
  formatAppliedFilters (Some f) = None
  <-> (forall y, year f = Some y ->
         truthy_num (exact y) = false /\ truthy_num (min_year y) = false
         /\ truthy_num (max_year y) = false)
      /\ (forall l, authors f = Some l -> l = [])
      /\ has_awards f <> Some true
      /\ truthy_str (language f) = false
      /\ truthy_str (bibkey f) = false.
Proof.
  rewrite format_none_parts, <- year_parts_nil, <- authors_parts_nil, <- awards_parts_nil.
  rewrite <- (truthy_parts_nil (language f) "language: "), <- (truthy_parts_nil (bibkey f) "bibkey: ").
  fold (language_parts f) (bibkey_parts f).
  split.
  - intros H. repeat (apply app_eq_nil in H as [? H]). repeat split; assumption.
  - intros (H1 & H2 & H3 & H4 & H5). rewrite H1, H2, H3, H4, H5. reflexivity.
Qed.

End FilterExtra.

Module ChatStreamExtra.
Import SSE SSEExamples SSEFacts SSEMore ChatPage ChatExtra.

(** A well-formed stream (a metadata message, chunk messages, a done
    message) whose reads each carry whole messages. *)
Lemma run_well_formed_chat parse md vm l dd statusText groups :
  has_nl md = false -> parse md = Some vm ->
  Forall (fun p => has_nl (fst p) = false /\ parse (fst p) = Some (snd p)) l ->
  has_nl dd = false ->
  concat groups = (("metadata", md) :: map (fun p => ("chunk", fst p)) l ++ [("done", dd)])%list ->
  run parse chat_callbacks
    (NResponse true statusText true :: map (fun g => NChunk (events_text g)) groups ++ [NEnd])
  = (CMetadata vm :: map (fun p => CChunk (snd p)) l ++ [CDone; CDone])%list.
Proof.
  intros Hmd Hvm Hl Hdd Hg. change chat_callbacks with (silent chat_callbacks).
  cbn [run negb]. rewrite read_loop_events.
  2:{ rewrite Hg. constructor; [repeat split; assumption|]. apply Forall_app. split.
      - apply Forall_map. eapply Forall_impl; [|exact Hl]. intros p [H _]. now repeat split.
      - constructor; [now repeat split | constructor]. }
  assert (Hmeta : dispatch_calls parse (silent chat_callbacks) "metadata" md = [CMetadata vm])
    by (unfold dispatch_calls, dispatch; cbn; rewrite Hvm; reflexivity).
  assert (Hch : flat_map (fun p => dispatch_calls parse (silent chat_callbacks) (fst p) (snd p))
                  (map (fun p => ("chunk", fst p)) l)
                = map (fun p => CChunk (snd p)) l).
  { clear - Hl. induction Hl as [|p l [_ Hp] Hl IH]; [reflexivity|].
    cbn [flat_map map]. rewrite IH. unfold dispatch_calls, dispatch. cbn. rewrite Hp. reflexivity. }
  rewrite Hg. cbn [flat_map]. rewrite flat_map_app, Hch. cbn [flat_map fst snd].
  rewrite Hmeta. change (final_done (silent chat_callbacks)) with [CDone].
  change (dispatch_calls parse (silent chat_callbacks) "done" dd) with [CDone].
  cbn [app]. rewrite <- app_assoc. reflexivity.
Qed.

Lemma onDone_twice aid st : onDone aid (onDone aid st) = onDone aid st.
Proof.
  unfold onDone, set_messages, finish.
  cbn [messages isLoading monitoringData abortController chatHistory currentChatId].
  f_equal. rewrite map_map. apply map_ext. intros msg. apply done_fill_idem.
Qed.

Lemma fallback_text_with_content msg c : fallback_text (with_content msg c) = fallback_text msg.
Proof. reflexivity. Qed.

(** The content an assistant message ends with once [onDone] has run
    after the chunk texts [s] were appended to it. *)
Definition answer_content (s : string) (msg : Msg.Message) : string :=
  let c := (Msg.content msg ++ s)%string in
  if String.eqb c "" then fallback_text msg else c.

(** ** X16 [handleSend] with [searchStream] on a well-formed stream (a
    metadata message, chunk messages, a done message, then the end of the
    body) whose reads each carry whole messages, however many per read:
    loading ends, the controller is released, and the assistant message
    holds its content followed by the chunk texts in order, or, when that
    is empty, the fallback text computed from the metadata's results; the
    other messages keep their content. *)
Theorem chat_well_formed_answer parse aid st md vm l dd statusText groups :
  has_nl md = false -> parse md = Some vm ->
  Forall (fun p => has_nl (fst p) = false /\ parse (fst p) = Some (snd p)) l ->
  has_nl dd = false ->
  concat groups = (("metadata", md) :: map (fun p => ("chunk", fst p)) l ++ [("done", dd)])%list ->
  let st' := fold_left (apply_call aid)
               (run parse chat_callbacks
                  (NResponse true statusText true
                   :: map (fun g => NChunk (events_text g)) groups ++ [NEnd])) st in
  isLoading st' = false /\ abortController st' = false
  /\ map Msg.content (messages st')
     = map (fun msg => if String.eqb (Msg.id msg) aid
                       then answer_content (String.concat "" (map (fun p => js_to_string (snd p)) l)) msg
                       else Msg.content msg)
           (messages (onMetadata aid vm st)).
Proof.
  intros Hmd Hvm Hl Hdd Hg st'. unfold st'.
  rewrite (run_well_formed_chat parse md vm l dd statusText groups Hmd Hvm Hl Hdd Hg).
  rewrite <- (map_map snd CChunk). cbn [fold_left]. rewrite fold_left_app.
  rewrite chunks_fold. cbn [fold_left apply_call]. rewrite onDone_twice.
  set (s := String.concat "" (map js_to_string (map snd l))).
  replace (String.concat "" (map (fun p => js_to_string (snd p)) l)) with s
    by (unfold s; now rewrite map_map).
  set (st1 := onMetadata aid vm st).
  split; [reflexivity|]. split; [reflexivity|].
  unfold onDone, set_messages, finish. cbn [messages].
  rewrite !map_map. apply map_ext. intros msg.
  unfold update_message, answer_content. destruct (String.eqb (Msg.id msg) aid) eqn:E.
  - cbn [with_content Msg.id Msg.content]. rewrite E. cbn [andb].
    destruct (String.eqb (Msg.content msg ++ s) "") eqn:C; reflexivity.
  - rewrite E. reflexivity.
Qed.

Lemma chat_well_formed_answer_witness :
  let st := {| messages := [ {| Msg.id := "1"; Msg.role := "user"; Msg.content := "parsing";
                                Msg.sourcePaper := None; Msg.searchResults := None;
                                Msg.searchMode := None; Msg.appliedFilters := None |};
                             {| Msg.id := "2"; Msg.role := "assistant"; Msg.content := "";
                                Msg.sourcePaper := None; Msg.searchResults := None;
                                Msg.searchMode := None; Msg.appliedFilters := None |} ];
               isLoading := true; monitoringData := None; abortController := true;
               chatHistory := []; currentChatId := None |} in
  let st' := fold_left (apply_call "2")
               (run sample_parse chat_callbacks
                  (NResponse true "OK" true
                   :: map (fun g => NChunk (events_text g))
                        [[("metadata", "{}"); ("chunk", quoted "hi")]; [("done", "{}")]]
                   ++ [NEnd])) st in
  isLoading st' = false /\ abortController st' = false
  /\ map Msg.content (messages st')
     = map (fun msg => if String.eqb (Msg.id msg) "2"
                       then answer_content (String.concat ""
                              (map (fun p => js_to_string (snd p)) [(quoted "hi", JStr "hi")])) msg
                       else Msg.content msg)
           (messages (onMetadata "2" (JObj []) st)).
Proof.
  intros st.
  apply (chat_well_formed_answer sample_parse "2" st "{}" (JObj []) [(quoted "hi", JStr "hi")] "{}" "OK"
           [[("metadata", "{}"); ("chunk", quoted "hi")]; [("done", "{}")]]);
    [reflexivity | reflexivity | repeat constructor | reflexivity | reflexivity].
Defined.

End ChatStreamExtra.

(* ------------------------------------------------------------------ *)
(** ** The handlers of [Chat] (components/chat/Chat.tsx) *)

(** Each handler is one user event; the page re-renders between two
    events, so each reads the state the previous one left.  The values of
    [crypto.randomUUID()] and [new Date()] are arguments. *)
Module ChatHandlers.
Import SSE ChatPage.

(** The synchronous part of [handleSend], up to the call to
    [searchStream]. *)
Definition handleSend_start (content userId newChatId assistantMessageId : string) (now : Z)
  (st : ChatState) : ChatState :=
  let userMessage := {| Msg.id := userId; Msg.role := "user"; Msg.content := content;
                        Msg.sourcePaper := None; Msg.searchResults := None;
                        Msg.searchMode := None; Msg.appliedFilters := None |} in
  let assistantMessage := {| Msg.id := assistantMessageId; Msg.role := "assistant"; Msg.content := "";
                             Msg.sourcePaper := None; Msg.searchResults := Some (JArr []);
                             Msg.searchMode := None; Msg.appliedFilters := None |} in
  let first := match currentChatId st with None => true | Some _ => false end
               && Nat.eqb (length (messages st)) 0 in
  {| messages := (messages st ++ [userMessage] ++ [assistantMessage])%list;
     isLoading := true;
     monitoringData := monitoringData st;
     abortController := true;
     chatHistory := if first
                    then {| Hist.id := newChatId; Hist.title := chat_title content;
                            Hist.createdAt := now |} :: chatHistory st
                    else chatHistory st;
     currentChatId := if first then Some newChatId else currentChatId st |}.

Definition handleStop (st : ChatState) : ChatState := finish st.

Definition handleNewChat (st : ChatState) : ChatState :=
  {| messages := []; isLoading := isLoading st; monitoringData := monitoringData st;
     abortController := abortController st; chatHistory := chatHistory st;
     currentChatId := None |}.

Definition handleSelectChat (id : string) (st : ChatState) : ChatState :=
  {| messages := []; isLoading := isLoading st; monitoringData := monitoringData st;
     abortController := abortController st; chatHistory := chatHistory st;
     currentChatId := Some id |}.

Definition handleDeleteChat (id : string) (st : ChatState) : ChatState :=
  let current := match currentChatId st with Some c => String.eqb c id | None => false end in
  {| messages := if current then [] else messages st;
     isLoading := isLoading st; monitoringData := monitoringData st;
     abortController := abortController st;
     chatHistory := filter (fun chat => negb (String.eqb (Hist.id chat) id)) (chatHistory st);
     currentChatId := if current then None else currentChatId st |}.

End ChatHandlers.

Module ChatHandlersExtra.
Import SSE ChatPage ChatHandlers.

Lemma filter_idem {A : Type} (f : A -> bool) (l : list A) : filter f (filter f l) = filter f l.
Proof.
  induction l as [|x l IH]; [reflexivity|]. cbn [filter].
  destruct (f x) eqn:E; [cbn [filter]; now rewrite E, IH | exact IH].
Qed.

(** ** X17 [handleDeleteChat id] removes every history entry with that id
    and keeps the others in order; deleting the same id again changes
    nothing; and deleting a chat other than the current one leaves the
    messages and the current chat as they were. *)
Theorem handleDeleteChat_removes (id : string) (st : ChatState) :
  let st' := handleDeleteChat id st in
  chatHistory st' = filter (fun chat => negb (String.eqb (Hist.id chat) id)) (chatHistory st)
  /\ Forall (fun chat => Hist.id chat <> id) (chatHistory st')
  /\ handleDeleteChat id st' = st'
  /\ (currentChatId st <> Some id ->
      messages st' = messages st /\ currentChatId st' = currentChatId st).
Proof.
  intros st'. split; [reflexivity|]. split; [|split].
  - apply Forall_forall. intros chat Hin. unfold st', handleDeleteChat in Hin.
    cbn [chatHistory] in Hin. apply filter_In in Hin as [_ H].
    apply negb_true_iff, String.eqb_neq in H. exact H.
  - unfold st', handleDeleteChat. cbn [messages isLoading monitoringData abortController
      chatHistory currentChatId]. rewrite filter_idem.
    destruct (currentChatId st) as [c|]; [|reflexivity].
    destruct (String.eqb c id) eqn:E; cbn [currentChatId]; rewrite ?E; reflexivity.
  - intros Hc. unfold st', handleDeleteChat. cbn [messages currentChatId].
    destruct (currentChatId st) as [c|]; [|split; reflexivity].
    destruct (String.eqb c id) eqn:E; [|split; reflexivity].
    apply String.eqb_eq in E. subst c. contradiction.
Qed.

(** ** X18 [handleSend] adds a chat to the history exactly for the first
    message of a conversation: with no current chat and no messages it
    puts a chat titled after the message in front of the history and makes
    it current; with a current chat or some message it leaves the history
    and the current chat as they were.  So a send that follows it never
    adds another, after [handleNewChat] the next send always starts a new
    chat, and after [handleSelectChat] the next send never does. *)
Theorem handleSend_history (c c' uid uid' cid cid' aid aid' id : string) (now now' : Z)
  (st : ChatState) :
  let st1 := handleSend_start c uid cid aid now st in
  (currentChatId st = None -> messages st = [] ->
     chatHistory st1 = {| Hist.id := cid; Hist.title := chat_title c; Hist.createdAt := now |}
                       :: chatHistory st
     /\ currentChatId st1 = Some cid)
  /\ (currentChatId st <> None \/ messages st <> [] ->
      chatHistory st1 = chatHistory st /\ currentChatId st1 = currentChatId st)
  /\ chatHistory (handleSend_start c' uid' cid' aid' now' st1) = chatHistory st1
  /\ chatHistory (handleSend_start c uid cid aid now (handleNewChat st))
     = {| Hist.id := cid; Hist.title := chat_title c; Hist.createdAt := now |} :: chatHistory st
  /\ chatHistory (handleSend_start c uid cid aid now (handleSelectChat id st)) = chatHistory st.
Proof.
  intros st1. split; [|split; [|split; [|split]]].
  - intros Hc Hm. unfold st1, handleSend_start. cbn [chatHistory currentChatId messages].
    rewrite Hc, Hm. split; reflexivity.
  - intros H. unfold st1, handleSend_start. cbn [chatHistory currentChatId].
    destruct (currentChatId st) as [k|]; [split; reflexivity|].
    destruct H as [H|H]; [contradiction|].
    destruct (messages st) as [|m ms]; [contradiction|]. split; reflexivity.
  - assert (Hm : Nat.eqb (length (messages st1)) 0 = false).
    { unfold st1, handleSend_start. cbn [messages]. rewrite length_app. cbn [length app].
      apply Nat.eqb_neq. lia. }
    clearbody st1. unfold handleSend_start. cbn [chatHistory]. rewrite Hm, andb_false_r.
    reflexivity.
  - reflexivity.
  - reflexivity.
Qed.

(** ** X19 The trailing [onDone] of a finished request can end a newer
    one.  The [done] event's [onDone] sets [isLoading] to false, so the
    input accepts a new send, which sets [isLoading] and a new controller;
    when the first stream's trailing [onDone] (the one [searchStream]
    invokes at the end of the body) runs after that send, it clears
    [isLoading] and the controller of the new request, whose assistant
    message is still empty. *)
Theorem stale_trailing_done (aid1 c uid cid aid2 : string) (now : Z) (st : ChatState) :
  aid2 <> aid1 ->
  let st1 := apply_call aid1 st CDone in
  let st2 := handleSend_start c uid cid aid2 now st1 in
  let st3 := apply_call aid1 st2 CDone in
  isLoading st1 = false
  /\ isLoading st2 = true /\ abortController st2 = true
  /\ isLoading st3 = false /\ abortController st3 = false
  /\ In {| Msg.id := aid2; Msg.role := "assistant"; Msg.content := "";
           Msg.sourcePaper := None; Msg.searchResults := Some (JArr []);
           Msg.searchMode := None; Msg.appliedFilters := None |} (messages st3).
Proof.
  intros Hne st1 st2 st3.
  split; [reflexivity|]. split; [reflexivity|]. split; [reflexivity|].
  split; [reflexivity|]. split; [reflexivity|].
  unfold st3, st2. cbn [apply_call]. unfold onDone, set_messages. cbn [messages].
  unfold handleSend_start. cbn [messages]. apply in_map_iff.
  eexists. split; [|apply in_or_app; right; right; left; reflexivity].
  cbn [Msg.id]. rewrite (proj2 (String.eqb_neq aid2 aid1) Hne). reflexivity.
Qed.

Lemma stale_trailing_done_witness :
  let st := {| messages := []; isLoading := true; monitoringData := None; abortController := true;
               chatHistory := []; currentChatId := None |} in
  let st1 := apply_call "a" st CDone in
  let st2 := handleSend_start "again" "u" "chat" "b" 0 st1 in
  let st3 := apply_call "a" st2 CDone in
  isLoading st1 = false
  /\ isLoading st2 = true /\ abortController st2 = true
  /\ isLoading st3 = false /\ abortController st3 = false
  /\ In {| Msg.id := "b"; Msg.role := "assistant"; Msg.content := "";
           Msg.sourcePaper := None; Msg.searchResults := Some (JArr []);
           Msg.searchMode := None; Msg.appliedFilters := None |} (messages st3).
Proof.
  intros st. apply (stale_trailing_done "a" "again" "u" "chat" "b" 0 st). discriminate.
Defined.

End ChatHandlersExtra.
